(** * Checkout-core: event bus, retry engine and webhook pipeline

    A shallow embedding of the TypeScript sources

      - core/event-emitter.ts      ([CheckoutEventEmitter.emitEvent])
      - retry/retry-service.ts     ([RetryService])
      - webhooks/webhook-handler.ts ([WebhookHandler])
      - payments/payment-service.ts ([PaymentService])
      - subscriptions/subscription-service.ts ([handleRecurringPayment])

    Asynchronous methods are embedded as state transformers: every [await]
    in these sources is sequential, so a call is a function from the state
    before it to a completion (returned value or thrown value) and the state
    after it.  Calls to the logger are left out: they change nothing that
    the services or their callers observe. *)

From Stdlib Require Import ZArith QArith Qpower Qminmax String SpecFloat.
From stdpp Require Import gmap strings list pretty.
From Equations Require Import Equations.

Set Warnings "-register-all".

(** ** JavaScript values *)

(** The part of the JavaScript value universe that the sources put into
    event payloads.  Numbers are exact rationals here; the rounding, the
    infinities and the NaN of IEEE doubles are those of [calculateDelay64]
    below, which has the backoff delays in the arithmetic of the engine. *)
Inductive JsVal : Type :=
| JUndefined
| JNum (q : Q)
| JStr (s : string)
| JObj (o : gmap string JsVal).

(** An object literal [{ k1: v1, ..., kn: vn }]; a later key overrides an
    earlier one, as in JavaScript. *)
Definition obj (fields : list (string * JsVal)) : gmap string JsVal :=
  fold_left (fun o kv => <[kv.1 := kv.2]> o) fields ∅.

(** [v || d] on an optional string: [undefined] and [''] are falsy. *)
Definition or_str (v : option string) (d : string) : string :=
  match v with
  | Some s => if String.eqb s "" then d else s
  | None => d
  end.

(** [v || d] on an optional integer: [undefined] and [0] are falsy. *)
Definition or_int (v : option Z) (d : Z) : Z :=
  match v with
  | Some n => if (n =? 0)%Z then d else n
  | None => d
  end.

(** [v || d] on an optional number: [undefined] and [0] are falsy. *)
Definition or_num (v : option Q) (d : Q) : Q :=
  match v with
  | Some q => if Qeq_bool q 0 then d else q
  | None => d
  end.

(** [o.key] on an object: [undefined] when the property is absent. *)
Definition prop (o : gmap string JsVal) (key : string) : JsVal :=
  default JUndefined (o !! key).

(** Whether a value counts as true: [undefined], [0] and [''] do not. *)
Definition truthy (v : JsVal) : bool :=
  match v with
  | JUndefined => false
  | JNum q => negb (Qeq_bool q 0)
  | JStr s => negb (String.eqb s "")
  | JObj _ => true
  end.

(** [a || b] on values: [a] itself when it is truthy. *)
Definition js_or (a b : JsVal) : JsVal := if truthy a then a else b.

Definition JInt (n : Z) : JsVal := JNum (inject_Z n).

Definition JOptStr (v : option string) : JsVal :=
  match v with
  | Some s => JStr s
  | None => JUndefined
  end.

(** ** Errors and completions *)

(** An [Error] object; the sources only ever read its [message]. *)
Record Error : Type := { message : string }.

(** What a [throw] statement of these sources can raise: an [Error], or the
    [undefined] that [throw lastError!] raises when nothing was assigned. *)
Inductive Thrown : Type :=
| ThrownUndefined
| ThrownError (e : Error).

(** How a call ends: [return v] (a resolved promise) or an exception
    (a rejected promise). *)
Inductive Completion (A : Type) : Type :=
| Returned (a : A)
| Threw (t : Thrown).
Arguments Returned {A} a.
Arguments Threw {A} t.

(** [error.message] in a [catch (error)] block.  Reading a property of
    [undefined] raises a [TypeError]. *)
Definition thrown_message (error : Thrown) : Error + string :=
  match error with
  | ThrownError e => inr (message e)
  | ThrownUndefined =>
      inl {| message := "Cannot read properties of undefined (reading 'message')" |}
  end.

(** ** The runtime outside the services *)

(** Everything the services do not own: the wall clock read by
    [new Date().toISOString()], the passage of time in
    [setTimeout(resolve, ms)], and whatever state the caller-supplied
    operations read and write. *)
Class Runtime : Type := {
  World : Type;
  isoNow : World -> string;
  setTimeout : Q -> World -> World
}.

(** ** Data model *)

(** [RetryableOperation<T>]: [execute] either resolves with a result or
    rejects with an [Error] (the type the source gives [lastError]). *)
Record RetryableOperation `{Runtime} : Type := {
  name : option string;
  execute : World -> (Error + JsVal) * World
}.

(** [RetryConfig].  [strategy] stays a string: [calculateDelay] has a
    [default] branch for values outside the three named strategies. *)
Record RetryConfig : Type := {
  maxAttempts : Z;
  initialDelay : Q;
  maxDelay : Q;
  backoffFactor : Q;
  strategy : string
}.

(** [Partial<RetryConfig>]: [None] is an absent key. *)
Record PartialRetryConfig : Type := {
  maxAttempts_opt : option Z;
  initialDelay_opt : option Q;
  maxDelay_opt : option Q;
  backoffFactor_opt : option Q;
  strategy_opt : option string
}.

(** The [context] object, [Record<string, any>].  [processRetryQueue] keeps
    a counter in its [retryCount] property; the other properties are
    opaque. *)
Record RetryContext : Type := {
  retryCount : option Z;
  properties : gmap string JsVal
}.

Definition emptyContext : RetryContext :=
  {| retryCount := None; properties := ∅ |}.

(** The context as it appears inside an event payload. *)
Definition contextVal (c : RetryContext) : JsVal :=
  JObj match retryCount c with
       | Some n => <["retryCount" := JInt n]> (properties c)
       | None => properties c
       end.

(** A queue item.  [itemId] is the identity of the item object and
    [context] is a reference to a context object, which several items and
    the caller may share. *)
Record RetryQueueItem `{Runtime} : Type := {
  itemId : nat;
  operation : RetryableOperation;
  context : nat;
  config : RetryConfig;
  createdAt : string
}.

(** An event as handed to the listeners by [EventEmitter2.emit]. *)
Record Emitted : Type := {
  eventName : string;
  eventData : gmap string JsVal
}.

(** The state of the process: the runtime, the events the singleton
    emitter has delivered so far (oldest first), the context objects, and
    the retry queue of the service. *)
Record State `{Runtime} : Type := {
  world : World;
  delivered : list Emitted;
  contexts : nat -> RetryContext;
  nextContext : nat;
  pending : list RetryQueueItem;
  nextItem : nat
}.

Section Model.
Context `{Runtime}.

Definition set_world (w : World) (st : State) : State :=
  {| world := w; delivered := delivered st; contexts := contexts st;
     nextContext := nextContext st; pending := pending st;
     nextItem := nextItem st |}.

Definition set_delivered (l : list Emitted) (st : State) : State :=
  {| world := world st; delivered := l; contexts := contexts st;
     nextContext := nextContext st; pending := pending st;
     nextItem := nextItem st |}.

Definition set_pending (q : list RetryQueueItem) (st : State) : State :=
  {| world := world st; delivered := delivered st; contexts := contexts st;
     nextContext := nextContext st; pending := q;
     nextItem := nextItem st |}.

(** [ref.prop = ...]: assignment to a property of the context object
    behind [ref]; every holder of the reference sees it. *)
Definition set_context (ref : nat) (c : RetryContext) (st : State) : State :=
  {| world := world st; delivered := delivered st;
     contexts := fun r => if Nat.eqb r ref then c else contexts st r;
     nextContext := nextContext st; pending := pending st;
     nextItem := nextItem st |}.

(** A fresh context object [{}]. *)
Definition new_context (st : State) : nat * State :=
  let ref := nextContext st in
  (ref,
   {| world := world st; delivered := delivered st;
      contexts := fun r => if Nat.eqb r ref then emptyContext else contexts st r;
      nextContext := S ref; pending := pending st;
      nextItem := nextItem st |}).

(** ** Event bus (core/event-emitter.ts) *)

(** [EventEmitter2.emit(event, eventData)]: hands the one [eventData]
    value to every matching listener.  The log records what was handed
    over.  The boolean it returns is discarded by every caller.  Listeners
    are taken not to throw into the publisher. *)
Definition emit (event : string) (data : gmap string JsVal) (st : State) : State :=
  set_delivered (delivered st ++ [{| eventName := event; eventData := data |}]) st.

Definition metadata (event timestamp : string) : JsVal :=
  JObj (obj [("event", JStr event);
             ("timestamp", JStr timestamp);
             ("source", JStr "checkout-core")]).

(** [{ ...data, _metadata: { event, timestamp, source } }] *)
Definition decorate (event timestamp : string) (data : gmap string JsVal)
  : gmap string JsVal :=
  <["_metadata" := metadata event timestamp]> data.

Definition emitEvent (event : string) (data : gmap string JsVal) (st : State) : State :=
  let timestamp := isoNow (world st) in
  emit event (decorate event timestamp data) st.

(** ** Retry engine (retry/retry-service.ts) *)

(** The constructor: each field is first defaulted with [||], then the
    trailing [...config] spread copies every key present in the argument
    over the defaulted value. *)
Definition defaulted (config : option PartialRetryConfig) : RetryConfig :=
  {| maxAttempts := or_int (config ≫= maxAttempts_opt) 3;
     initialDelay := or_num (config ≫= initialDelay_opt) 1000;
     maxDelay := or_num (config ≫= maxDelay_opt) 60000;
     backoffFactor := or_num (config ≫= backoffFactor_opt) 2;
     strategy := or_str (config ≫= strategy_opt) "exponential" |}.

Definition spread (base : RetryConfig) (config : option PartialRetryConfig)
  : RetryConfig :=
  {| maxAttempts := default (maxAttempts base) (config ≫= maxAttempts_opt);
     initialDelay := default (initialDelay base) (config ≫= initialDelay_opt);
     maxDelay := default (maxDelay base) (config ≫= maxDelay_opt);
     backoffFactor := default (backoffFactor base) (config ≫= backoffFactor_opt);
     strategy := default (strategy base) (config ≫= strategy_opt) |}.

Definition newRetryService (config : option PartialRetryConfig) : RetryConfig :=
  spread (defaulted config) config.

(** [calculateDelay(attempt)] over exact numbers: the expression that each
    branch of the [switch] computes, with [Math.pow(b, attempt - 1)] as
    [b ^ (attempt - 1)].  [calculateDelay64] below is the same [switch] in
    the arithmetic of the engine. *)
Definition calculateDelay (cfg : RetryConfig) (attempt : Z) : Q :=
  if String.eqb (strategy cfg) "exponential" then
    Qmin (initialDelay cfg * backoffFactor cfg ^ (attempt - 1)) (maxDelay cfg)
  else if String.eqb (strategy cfg) "linear" then
    Qmin (initialDelay cfg * inject_Z attempt) (maxDelay cfg)
  else if String.eqb (strategy cfg) "fixed" then
    initialDelay cfg
  else
    Qmin (initialDelay cfg * 2 ^ (attempt - 1)) (maxDelay cfg).

(** [throw lastError!]: the non-null assertion is erased at run time. *)
Definition throw_lastError (lastError : option Error) : Thrown :=
  match lastError with
  | Some e => ThrownError e
  | None => ThrownUndefined
  end.

(** [await operation.execute()] *)
Definition run_execute (op : RetryableOperation) (st : State)
  : (Error + JsVal) * State :=
  let (r, w) := execute op (world st) in (r, set_world w st).

(** [await this.delay(ms)] *)
Definition delay (ms : Q) (st : State) : State :=
  set_world (setTimeout ms (world st)) st.

Definition attemptData (cfg : RetryConfig) (op : RetryableOperation)
    (ctx : RetryContext) (attempt : Z) (st : State) : gmap string JsVal :=
  obj [("operation", JStr (or_str (name op) "unknown"));
       ("attempt", JInt attempt);
       ("maxAttempts", JInt (maxAttempts cfg));
       ("context", contextVal ctx);
       ("timestamp", JStr (isoNow (world st)))].

Definition successData (op : RetryableOperation) (ctx : RetryContext)
    (attempt : Z) (result : JsVal) (st : State) : gmap string JsVal :=
  obj [("operation", JStr (or_str (name op) "unknown"));
       ("attempt", JInt attempt);
       ("result", result);
       ("context", contextVal ctx);
       ("timestamp", JStr (isoNow (world st)))].

Definition failedData (op : RetryableOperation) (ctx : RetryContext)
    (attempt : Z) (error : Error) (st : State) : gmap string JsVal :=
  obj [("operation", JStr (or_str (name op) "unknown"));
       ("attempt", JInt attempt);
       ("error", JStr (message error));
       ("context", contextVal ctx);
       ("timestamp", JStr (isoNow (world st)))].

Definition exhaustedData (cfg : RetryConfig) (op : RetryableOperation)
    (ctx : RetryContext) (error : Error) (st : State) : gmap string JsVal :=
  obj [("operation", JStr (or_str (name op) "unknown"));
       ("maxAttempts", JInt (maxAttempts cfg));
       ("error", JStr (message error));
       ("context", contextVal ctx);
       ("timestamp", JStr (isoNow (world st)))].

Definition scheduledData (op : RetryableOperation) (ctx : RetryContext)
    (attempt : Z) (ms : Q) (st : State) : gmap string JsVal :=
  obj [("operation", JStr (or_str (name op) "unknown"));
       ("attempt", JInt attempt);
       ("nextAttempt", JInt (attempt + 1));
       ("delay", JNum ms);
       ("context", contextVal ctx);
       ("timestamp", JStr (isoNow (world st)))].

(** One pass through the body of the [while] loop, entered with the loop
    condition true.  Either the call is over ([inl]: a [return] from the
    [try] block, or the [break] followed by [throw lastError!]), or the
    loop goes round again ([inr]) with the new [attempt] and [lastError]. *)
Definition iteration (cfg : RetryConfig) (op : RetryableOperation)
    (ctx : RetryContext) (attempt : Z) (st : State)
  : (Completion JsVal + Z * option Error) * State :=
  let attempt := (attempt + 1)%Z in
  let st := emitEvent "retry:attempt" (attemptData cfg op ctx attempt st) st in
  match run_execute op st with
  | (inr result, st) =>
      let st := emitEvent "retry:success" (successData op ctx attempt result st) st in
      (inl (Returned result), st)
  | (inl error, st) =>
      let lastError := Some error in
      let st := emitEvent "retry:failed" (failedData op ctx attempt error st) st in
      if (attempt =? maxAttempts cfg)%Z then
        let st := emitEvent "retry:exhausted" (exhaustedData cfg op ctx error st) st in
        (inl (Threw (throw_lastError lastError)), st)
      else
        let ms := calculateDelay cfg attempt in
        let st := emitEvent "retry:scheduled" (scheduledData op ctx attempt ms st) st in
        let st := delay ms st in
        (inr (attempt, lastError), st)
  end.

(** A value together with the equation that produced it, so that the
    termination proof below can see which branch was taken. *)
Definition inspect {A : Type} (a : A) : {b : A | a = b} := exist _ a eq_refl.

(** The [while (attempt < this.config.maxAttempts)] loop together with the
    [throw lastError!] that follows it.  The loop ends because every pass
    adds one to [attempt]. *)
Equations? retryLoop (cfg : RetryConfig) (op : RetryableOperation)
    (ctx : RetryContext) (attempt : Z) (lastError : option Error) (st : State)
  : Completion JsVal * State
  by wf (Z.to_nat (maxAttempts cfg - attempt)) lt :=
retryLoop cfg op ctx attempt lastError st with Z_lt_dec attempt (maxAttempts cfg) := {
  | right _ => (Threw (throw_lastError lastError), st)
  | left _ with inspect (iteration cfg op ctx attempt st) := {
      | exist _ (inl finished, st1) _ => (finished, st1)
      | exist _ (inr (attempt1, lastError1), st1) Hit =>
          retryLoop cfg op ctx attempt1 lastError1 st1 } }.
Proof.
  unfold iteration in Hit.
  destruct (run_execute _ _) as [[error|result] st2]; [|discriminate].
  destruct (_ =? _)%Z; [discriminate|].
  injection Hit as <- _ _. lia.
Qed.

(** [executeWithRetry(operation, context)] for a service whose
    [this.config] is [cfg]. *)
Definition executeWithRetry (cfg : RetryConfig) (op : RetryableOperation)
    (ctx : RetryContext) (st : State) : Completion JsVal * State :=
  retryLoop cfg op ctx 0 None st.

(** Modelled from the spec: retry/retry-queue.ts ([RetryQueue]) is not
    among the sources.  The spec gives its contract: [add(item)],
    [getPending()] returning the not-yet-resolved items in insertion order,
    and [remove(item)] removing by identity. *)
Definition retryQueue_add (item : RetryQueueItem) (st : State) : State :=
  set_pending (pending st ++ [item]) st.

Definition retryQueue_getPending (st : State) : list RetryQueueItem :=
  pending st.

Definition retryQueue_remove (item : RetryQueueItem) (st : State) : State :=
  set_pending (filter (fun i => itemId i ≠ itemId item) (pending st)) st.

(** The object literal of [queueForRetry]; a new object, hence a new
    identity. *)
Definition new_item (cfg : RetryConfig) (op : RetryableOperation) (ref : nat)
    (st : State) : RetryQueueItem * State :=
  ({| itemId := nextItem st; operation := op; context := ref; config := cfg;
      createdAt := isoNow (world st) |},
   {| world := world st; delivered := delivered st; contexts := contexts st;
      nextContext := nextContext st; pending := pending st;
      nextItem := S (nextItem st) |}).

Definition queuedData (op : RetryableOperation) (ctx : RetryContext)
    (st : State) : gmap string JsVal :=
  obj [("operation", JStr (or_str (name op) "unknown"));
       ("context", contextVal ctx);
       ("timestamp", JStr (isoNow (world st)))].

(** [queueForRetry(operation, context = {})]; [None] is the omitted
    argument, for which the default [{}] is a fresh object. *)
Definition queueForRetry (cfg : RetryConfig) (op : RetryableOperation)
    (context : option nat) (st : State) : State :=
  let (ref, st) := match context with
                   | Some ref => (ref, st)
                   | None => new_context st
                   end in
  let (retryItem, st) := new_item cfg op ref st in
  let st := retryQueue_add retryItem st in
  emitEvent "retry:queued" (queuedData op (contexts st ref) st) st.

Definition itemFailedData (item : RetryQueueItem) (count : Z) (msg : string)
    (st : State) : gmap string JsVal :=
  obj [("operation", JStr (or_str (name (operation item)) "unknown"));
       ("retryCount", JInt count);
       ("error", JStr msg);
       ("timestamp", JStr (isoNow (world st)))].

(** The body of the [for (const item of items)] loop of
    [processRetryQueue]: the [try] block and its [catch]. *)
Definition processItem (cfg : RetryConfig) (item : RetryQueueItem) (st : State)
  : Completion unit * State :=
  match executeWithRetry cfg (operation item) (contexts st (context item)) st with
  | (Returned _, st) =>
      (Returned tt, retryQueue_remove item st)
  | (Threw error, st) =>
      let ctx := contexts st (context item) in
      let count := (or_int (retryCount ctx) 0 + 1)%Z in
      let st := set_context (context item)
                  {| retryCount := Some count; properties := properties ctx |} st in
      if (count >=? maxAttempts (config item))%Z then
        let st := retryQueue_remove item st in
        match thrown_message error with
        | inr msg =>
            (Returned tt,
             emitEvent "retry:queue:item:failed" (itemFailedData item count msg st) st)
        | inl typeError => (Threw (ThrownError typeError), st)
        end
      else (Returned tt, st)
  end.

(** The [for] loop over the snapshot: an exception that escapes the body
    ends the loop and the call. *)
Fixpoint processItems (cfg : RetryConfig) (items : list RetryQueueItem)
    (st : State) : Completion unit * State :=
  match items with
  | [] => (Returned tt, st)
  | item :: rest =>
      match processItem cfg item st with
      | (Returned _, st) => processItems cfg rest st
      | (Threw error, st) => (Threw error, st)
      end
  end.

Definition processRetryQueue (cfg : RetryConfig) (st : State)
  : Completion unit * State :=
  let items := retryQueue_getPending st in
  processItems cfg items st.

End Model.

(** ** Backoff delays in the arithmetic of the engine *)

(** A JavaScript number is an IEEE 754 binary64 value: [calculateDelay]
    on such values, with the rounding, the infinities and the NaN that the
    exact [calculateDelay] above leaves out. *)
Definition double : Type := spec_float.

(** [x * y], rounded to nearest, ties to even. *)
Definition double_mul (x y : double) : double := SFmul 53 1024 x y.

(** The number that an integer denotes, as a literal or as the counter
    [attempt]; [attempt - 1] is exact as long as the counter is. *)
Definition double_of_Z (n : Z) : double := binary_normalize 53 1024 n 0 false.

(** [x <= y]: false when either side is NaN. *)
Definition double_le (x y : double) : bool := SFleb x y.

(** [Math.min(x, y)]: NaN when either argument is, and [-0] counts as
    smaller than [+0]. *)
Definition Math_min (x y : double) : double :=
  match x, y with
  | S754_nan, _ | _, S754_nan => S754_nan
  | S754_zero sx, S754_zero sy => S754_zero (sx || sy)
  | _, _ => if SFltb x y then x else y
  end.

(** [Math.pow], which the language leaves to the engine to approximate. *)
Class Engine : Type := {
  Math_pow : double -> double -> double
}.

(** The four properties of [this.config] that [calculateDelay] reads, as
    numbers of the engine. *)
Record RetryConfig64 : Type := {
  initialDelay64 : double;
  maxDelay64 : double;
  backoffFactor64 : double;
  strategy64 : string
}.

Definition calculateDelay64 `{Engine} (cfg : RetryConfig64) (attempt : Z)
  : double :=
  if String.eqb (strategy64 cfg) "exponential" then
    Math_min (double_mul (initialDelay64 cfg)
                (Math_pow (backoffFactor64 cfg) (double_of_Z (attempt - 1))))
             (maxDelay64 cfg)
  else if String.eqb (strategy64 cfg) "linear" then
    Math_min (double_mul (initialDelay64 cfg) (double_of_Z attempt)) (maxDelay64 cfg)
  else if String.eqb (strategy64 cfg) "fixed" then
    initialDelay64 cfg
  else
    Math_min (double_mul (initialDelay64 cfg)
                (Math_pow (double_of_Z 2) (double_of_Z (attempt - 1))))
             (maxDelay64 cfg).

(** ** The realm outside the sources *)

(** The properties every object inherits from [Object.prototype], as the
    language defines them (ECMAScript, 20.1.3 and B.2.2).  Their values are
    functions, and the accessor [__proto__] gives [Object.prototype]
    itself: values that are truthy and are no strings.  No other property
    is taken to have been added to [Object.prototype]. *)
Definition objectPrototypeKeys : list string :=
  ["constructor"; "hasOwnProperty"; "isPrototypeOf"; "propertyIsEnumerable";
   "toLocaleString"; "toString"; "valueOf"; "__proto__";
   "__defineGetter__"; "__defineSetter__"; "__lookupGetter__";
   "__lookupSetter__"].

(** What the sources reach when a lookup leaves their own objects:
    - [Native], the values that are no data of the model: functions and
      built-in objects, and whatever truthy values that are no strings
      their properties hold;
    - [inherited key], the value of [Object.prototype[key]] for a [key] of
      [objectPrototypeKeys];
    - [nativeGet native key], the read [native[key]]: it throws, or gives a
      falsy value ([None]), a string or another native value;
    - [nonStringToString v], the conversion [ToString(v)] of a template
      literal or of a computed property key, for a [v] that is no string;
    - [emitNative native data], the call [emitEvent(native, data)] of the
      bus with an event that is no string (EventEmitter2 is not among the
      sources). *)
Class Realm `{Runtime} : Type := {
  Native : Type;
  inherited : string -> Native;
  nativeGet : Native -> string -> Error + option (string + Native);
  nonStringToString : JsVal -> Error + string;
  emitNative : Native -> gmap string JsVal -> State -> Completion unit * State
}.

(** ** Webhook pipeline (webhooks/webhook-handler.ts) *)

Record WebhookVerificationResult : Type := {
  valid : bool;
  verifiedProvider : option string;
  error : option string
}.

Record WebhookHandlerConfig : Type := {
  stripeWebhookSecret : option string
}.

Record ProcessWebhookParams : Type := {
  provider : string;
  payload : gmap string JsVal;
  signature : option string;
  headers : option (gmap string string)
}.

(** [validateWebhookSignature] of utils/validation.ts, which is not among
    the sources: it is taken as given.  It may resolve with a verification
    result or throw. *)
Class Validation : Type := {
  validateWebhookSignature :
    gmap string JsVal -> string -> option string -> Error + WebhookVerificationResult
}.

Section Webhooks.
Context `{Runtime} `{Validation} `{!Realm}.

(** [verifyWebhook]: the [switch] inside [try], and the [catch] that turns
    an exception into an invalid result. *)
Definition verifyWebhook (hcfg : WebhookHandlerConfig) (params : ProcessWebhookParams)
  : WebhookVerificationResult :=
  let attempted :=
    if String.eqb (provider params) "stripe" then
      validateWebhookSignature (payload params) (or_str (signature params) "")
        (stripeWebhookSecret hcfg)
    else if String.eqb (provider params) "paypal" then
      inr {| valid := true; verifiedProvider := Some (provider params); error := None |}
    else
      inr {| valid := true; verifiedProvider := Some (provider params); error := None |}
  in
  match attempted with
  | inr result => result
  | inl thrown =>
      {| valid := false; verifiedProvider := Some (provider params);
         error := Some (message thrown) |}
  end.

(** [mapProviderEvent].  It is declared to return a string, and returns
    whatever truthy value the payload holds: [payload.type || 'unknown']
    is [payload.type] itself unless that is falsy.  The three properties
    read are none of [objectPrototypeKeys]. *)
Definition mapProviderEvent (provider : string) (payload : gmap string JsVal)
  : JsVal :=
  if String.eqb provider "stripe" then
    js_or (prop payload "type") (JStr "unknown")
  else if String.eqb provider "paypal" then
    js_or (prop payload "event_type") (JStr "unknown")
  else
    js_or (js_or (prop payload "event") (prop payload "type")) (JStr "unknown").

Definition stripeEvents : gmap string string :=
  list_to_map
    [("payment_intent.succeeded", "payment:captured");
     ("payment_intent.payment_failed", "payment:failed");
     ("charge.refunded", "payment:refunded");
     ("customer.subscription.created", "subscription:created");
     ("customer.subscription.updated", "subscription:updated");
     ("customer.subscription.deleted", "subscription:cancelled");
     ("invoice.payment_succeeded", "subscription:invoice:paid");
     ("invoice.payment_failed", "subscription:invoice:payment:failed")].

Definition paypalEvents : gmap string string :=
  list_to_map
    [("PAYMENT.CAPTURE.COMPLETED", "payment:captured");
     ("PAYMENT.CAPTURE.DENIED", "payment:declined");
     ("PAYMENT.CAPTURE.REFUNDED", "payment:refunded");
     ("BILLING.SUBSCRIPTION.ACTIVATED", "subscription:activated");
     ("BILLING.SUBSCRIPTION.CANCELLED", "subscription:cancelled");
     ("BILLING.SUBSCRIPTION.EXPIRED", "subscription:expired")].

(** The own properties of the object literal [maps] of [getEventMap]. *)
Definition maps : gmap string (gmap string string) :=
  list_to_map [("stripe", stripeEvents); ("paypal", paypalEvents)].

(** [getEventMap]: [maps[provider] || {}].  The read [maps[provider]] finds
    an own property of [maps], or else a property [maps] inherits, which
    is truthy and is returned as it is; only when there is neither does
    the call return the empty object.  [inl] is an object with the own
    properties given, [inr] a native value. *)
Definition getEventMap (provider : string) : gmap string string + Native :=
  match maps !! provider with
  | Some table => inl table
  | None =>
      if bool_decide (provider ∈ objectPrototypeKeys)
      then inr (inherited provider)
      else inl ∅
  end.

(** [eventMap[key]]: an own property, or else an inherited one. *)
Definition eventMapGet (eventMap : gmap string string + Native) (key : string)
  : Error + option (string + Native) :=
  match eventMap with
  | inl own =>
      match own !! key with
      | Some name => inr (Some (inl name))
      | None =>
          if bool_decide (key ∈ objectPrototypeKeys)
          then inr (Some (inr (inherited key)))
          else inr None
      end
  | inr native => nativeGet native key
  end.

(** [ToString(v)] *)
Definition toString (v : JsVal) : Error + string :=
  match v with
  | JStr s => inr s
  | _ => nonStringToString v
  end.

Definition routedData (provider : string) (eventType : JsVal)
    (payload : gmap string JsVal) (st : State) : gmap string JsVal :=
  obj [("provider", JStr provider);
       ("originalEvent", eventType);
       ("payload", JObj payload);
       ("timestamp", JStr (isoNow (world st)))].

Definition genericData (provider : string) (eventType : JsVal)
    (payload : gmap string JsVal) (st : State) : gmap string JsVal :=
  obj [("provider", JStr provider);
       ("eventType", eventType);
       ("payload", JObj payload);
       ("timestamp", JStr (isoNow (world st)))].

(** The value [routeWebhookEvent] publishes under:
    [eventMap[eventType] || `webhook:${provider}:${eventType}`].
    [eventType] is converted to a property key, which may throw; the read
    may throw; a truthy value that is read is taken as it is, string or
    not.  [inr (inl name)] is a string, [inr (inr native)] is not. *)
Definition internalEvent (provider : string) (eventType : JsVal)
  : Error + (string + Native) :=
  match toString eventType with
  | inl thrown => inl thrown
  | inr key =>
      let fallback := "webhook:" +:+ provider +:+ ":" +:+ key in
      match eventMapGet (getEventMap provider) key with
      | inl thrown => inl thrown
      | inr (Some (inl name)) =>
          inr (inl (if String.eqb name "" then fallback else name))
      | inr (Some (inr native)) => inr (inr native)
      | inr None => inr (inl fallback)
      end
  end.

(** [this.eventEmitter.emitEvent(event, data)] for the value [event]
    that [internalEvent] gives. *)
Definition emitInternal (event : string + Native) (data : gmap string JsVal)
    (st : State) : Completion unit * State :=
  match event with
  | inl name => (Returned tt, emitEvent name data st)
  | inr native => emitNative native data st
  end.

Definition routeWebhookEvent (provider : string) (eventType : JsVal)
    (payload : gmap string JsVal) (st : State) : Completion unit * State :=
  match internalEvent provider eventType with
  | inl thrown => (Threw (ThrownError thrown), st)
  | inr event =>
      match emitInternal event (routedData provider eventType payload st) st with
      | (Threw thrown, st) => (Threw thrown, st)
      | (Returned _, st) =>
          let st := emitEvent "webhook:event"
                      (genericData provider eventType payload st) st in
          (Returned tt, st)
      end
  end.

Definition headersVal (headers : option (gmap string string)) : JsVal :=
  match headers with
  | Some h => JObj (JStr <$> h)
  | None => JUndefined
  end.

(** [`${v}`] for an optional string. *)
Definition template (v : option string) : string :=
  match v with
  | Some s => s
  | None => "undefined"
  end.

Definition verificationFailedData (params : ProcessWebhookParams)
    (verification : WebhookVerificationResult) (st : State) : gmap string JsVal :=
  obj [("provider", JStr (provider params));
       ("error", JOptStr (error verification));
       ("timestamp", JStr (isoNow (world st)))].

Definition receivedData (params : ProcessWebhookParams) (eventType : JsVal)
    (st : State) : gmap string JsVal :=
  obj [("provider", JStr (provider params));
       ("eventType", eventType);
       ("payload", JObj (payload params));
       ("headers", headersVal (headers params));
       ("timestamp", JStr (isoNow (world st)))].

Definition processedData (params : ProcessWebhookParams) (eventType : JsVal)
    (st : State) : gmap string JsVal :=
  obj [("provider", JStr (provider params));
       ("eventType", eventType);
       ("payload", JObj (payload params));
       ("timestamp", JStr (isoNow (world st)))].

Definition processingFailedData (params : ProcessWebhookParams) (msg : string)
    (st : State) : gmap string JsVal :=
  obj [("provider", JStr (provider params));
       ("error", JStr msg);
       ("payload", JObj (payload params));
       ("timestamp", JStr (isoNow (world st)))].

(** The [try] block of [processWebhook]. *)
Definition processWebhook_try (hcfg : WebhookHandlerConfig)
    (params : ProcessWebhookParams) (st : State) : Completion unit * State :=
  let verification := verifyWebhook hcfg params in
  if negb (valid verification) then
    let st := emitEvent "webhook:verification:failed"
                (verificationFailedData params verification st) st in
    (Threw (ThrownError
              {| message := "Webhook verification failed: "
                            +:+ template (error verification) |}), st)
  else
    let eventType := mapProviderEvent (provider params) (payload params) in
    let st := emitEvent "webhook:received" (receivedData params eventType st) st in
    match routeWebhookEvent (provider params) eventType (payload params) st with
    | (Threw thrown, st) => (Threw thrown, st)
    | (Returned _, st) =>
        let st := emitEvent "webhook:processed"
                    (processedData params eventType st) st in
        (Returned tt, st)
    end.

(** [processWebhook]: the [try] block, and the [catch] that publishes
    [webhook:processing:failed] and re-throws. *)
Definition processWebhook (hcfg : WebhookHandlerConfig)
    (params : ProcessWebhookParams) (st : State) : Completion unit * State :=
  match processWebhook_try hcfg params st with
  | (Returned v, st) => (Returned v, st)
  | (Threw thrown, st) =>
      match thrown_message thrown with
      | inr msg =>
          let st := emitEvent "webhook:processing:failed"
                      (processingFailedData params msg st) st in
          (Threw thrown, st)
      | inl typeError => (Threw (ThrownError typeError), st)
      end
  end.

End Webhooks.

(** ** Payments (payments/payment-service.ts) *)

(** The [params] object of the payment operations ([CreatePaymentParams],
    [CapturePaymentParams], [RefundPaymentParams]): the [provider] property,
    a string, and the other properties. *)
Record PaymentParams : Type := {
  paymentProvider : string;
  paymentDetails : gmap string JsVal
}.

(** The [params] object as a whole. *)
Definition paramsObject (params : PaymentParams) : gmap string JsVal :=
  <["provider" := JStr (paymentProvider params)]> (paymentDetails params).

(** [BasePaymentProvider] of providers/base-provider.ts, which is not among
    the sources: the four methods the service calls.  A method resolves with
    an object or rejects with an [Error]. *)
Record BasePaymentProvider `{Runtime} : Type := {
  providerCreatePaymentIntent :
    PaymentParams -> World -> (Error + gmap string JsVal) * World;
  providerCapturePayment :
    PaymentParams -> World -> (Error + gmap string JsVal) * World;
  providerRefundPayment :
    PaymentParams -> World -> (Error + gmap string JsVal) * World;
  providerGetPaymentMethods :
    string -> World -> (Error + JsVal) * World
}.

(** What the payment service is given: [validatePaymentParams] of
    utils/validation.ts ([Some e]: it throws [e]) and the two provider
    classes, none of which is among the sources. *)
Class PaymentCollaborators `{Runtime} : Type := {
  validatePaymentParams : PaymentParams -> option Error;
  StripeProvider : BasePaymentProvider;
  PayPalProvider : BasePaymentProvider
}.

Section Payments.
Context `{Runtime} `{!PaymentCollaborators}.

(** [initializeProviders] *)
Definition providers : gmap string BasePaymentProvider :=
  <["paypal" := PayPalProvider]> (<["stripe" := StripeProvider]> ∅).

(** [new Error(`Unsupported payment provider: ${provider}`)] *)
Definition unsupportedProvider (provider : string) : Error :=
  {| message := "Unsupported payment provider: " +:+ provider |}.

(** The payload of the three failure events. *)
Definition paymentFailedData (error : Error) (params : PaymentParams) (st : State)
  : gmap string JsVal :=
  obj [("error", JStr (message error));
       ("params", JObj (paramsObject params));
       ("timestamp", JStr (isoNow (world st)))].

Definition intentCreatedData (paymentIntent : gmap string JsVal)
    (params : PaymentParams) : gmap string JsVal :=
  obj [("paymentIntentId", prop paymentIntent "id");
       ("amount", prop paymentIntent "amount");
       ("currency", prop paymentIntent "currency");
       ("customerId", prop (paramsObject params) "customerId");
       ("metadata", prop (paramsObject params) "metadata")].

Definition capturedData (result : gmap string JsVal) : gmap string JsVal :=
  obj [("paymentId", prop result "id");
       ("amount", prop result "amount");
       ("currency", prop result "currency");
       ("status", prop result "status");
       ("metadata", prop result "metadata")].

Definition refundedData (result : gmap string JsVal) (params : PaymentParams)
  : gmap string JsVal :=
  obj [("refundId", prop result "id");
       ("paymentId", prop (paramsObject params) "paymentId");
       ("amount", prop result "amount");
       ("reason", prop (paramsObject params) "reason");
       ("metadata", prop result "metadata")].

(** [await provider.method(params)] *)
Definition run_provider {A : Type} (method : World -> (Error + A) * World)
    (st : State) : (Error + A) * State :=
  let (r, w) := method (world st) in (r, set_world w st).

(** The [try] block of [createPaymentIntent]: [inl] is the error it throws. *)
Definition createPaymentIntent_try (params : PaymentParams) (st : State)
  : (Error + gmap string JsVal) * State :=
  match validatePaymentParams params with
  | Some thrown => (inl thrown, st)
  | None =>
      match providers !! paymentProvider params with
      | None => (inl (unsupportedProvider (paymentProvider params)), st)
      | Some provider =>
          match run_provider (providerCreatePaymentIntent provider params) st with
          | (inl rejected, st) => (inl rejected, st)
          | (inr paymentIntent, st) =>
              let st := emitEvent "payment:intent:created"
                          (intentCreatedData paymentIntent params) st in
              (inr paymentIntent, st)
          end
      end
  end.

Definition createPaymentIntent (params : PaymentParams) (st : State)
  : Completion (gmap string JsVal) * State :=
  match createPaymentIntent_try params st with
  | (inr paymentIntent, st) => (Returned paymentIntent, st)
  | (inl error, st) =>
      let st := emitEvent "payment:intent:failed"
                  (paymentFailedData error params st) st in
      (Threw (ThrownError error), st)
  end.

Definition capturePayment_try (params : PaymentParams) (st : State)
  : (Error + gmap string JsVal) * State :=
  match providers !! paymentProvider params with
  | None => (inl (unsupportedProvider (paymentProvider params)), st)
  | Some provider =>
      match run_provider (providerCapturePayment provider params) st with
      | (inl rejected, st) => (inl rejected, st)
      | (inr result, st) =>
          let st := emitEvent "payment:captured" (capturedData result) st in
          (inr result, st)
      end
  end.

Definition capturePayment (params : PaymentParams) (st : State)
  : Completion (gmap string JsVal) * State :=
  match capturePayment_try params st with
  | (inr result, st) => (Returned result, st)
  | (inl error, st) =>
      let st := emitEvent "payment:capture:failed"
                  (paymentFailedData error params st) st in
      (Threw (ThrownError error), st)
  end.

Definition refundPayment_try (params : PaymentParams) (st : State)
  : (Error + gmap string JsVal) * State :=
  match providers !! paymentProvider params with
  | None => (inl (unsupportedProvider (paymentProvider params)), st)
  | Some provider =>
      match run_provider (providerRefundPayment provider params) st with
      | (inl rejected, st) => (inl rejected, st)
      | (inr result, st) =>
          let st := emitEvent "payment:refunded" (refundedData result params) st in
          (inr result, st)
      end
  end.

Definition refundPayment (params : PaymentParams) (st : State)
  : Completion (gmap string JsVal) * State :=
  match refundPayment_try params st with
  | (inr result, st) => (Returned result, st)
  | (inl error, st) =>
      let st := emitEvent "payment:refund:failed"
                  (paymentFailedData error params st) st in
      (Threw (ThrownError error), st)
  end.

(** [getPaymentMethods(customerId, provider)]: no [try] here. *)
Definition getPaymentMethods (customerId provider : string) (st : State)
  : Completion JsVal * State :=
  match providers !! provider with
  | None => (Threw (ThrownError (unsupportedProvider provider)), st)
  | Some paymentProvider =>
      match run_provider (providerGetPaymentMethods paymentProvider customerId) st with
      | (inl rejected, st) => (Threw (ThrownError rejected), st)
      | (inr methods, st) => (Returned methods, st)
      end
  end.

End Payments.

(** ** Recurring payments (subscriptions/subscription-service.ts) *)

(** [Date.now()], the milliseconds the clock of the world shows. *)
Class Clock `{Runtime} : Type := {
  dateNow : World -> Z
}.

Section Subscriptions.
Context `{Runtime} `{!Clock}.

(** The [TypeError] of reading the property [key] of [undefined]. *)
Definition undefinedRead (key : string) : Error :=
  {| message := "Cannot read properties of undefined (reading '" +:+ key +:+ "')" |}.

Definition recurringStartedData (subscriptionId : string)
    (paymentData : gmap string JsVal) (st : State) : gmap string JsVal :=
  obj [("subscriptionId", JStr subscriptionId);
       ("amount", prop paymentData "amount");
       ("currency", prop paymentData "currency");
       ("timestamp", JStr (isoNow (world st)))].

(** [`pay_${Date.now()}`]: the clock shows an integer, printed in decimal. *)
Definition recurringCompletedData (subscriptionId : string)
    (paymentData : gmap string JsVal) (st : State) : gmap string JsVal :=
  obj [("subscriptionId", JStr subscriptionId);
       ("paymentId", JStr ("pay_" +:+ pretty (dateNow (world st))));
       ("amount", prop paymentData "amount");
       ("currency", prop paymentData "currency");
       ("status", JStr "succeeded");
       ("timestamp", JStr (isoNow (world st)))].

Definition recurringFailedData (subscriptionId : string) (error : Error)
    (paymentData : gmap string JsVal) (st : State) : gmap string JsVal :=
  obj [("subscriptionId", JStr subscriptionId);
       ("error", JStr (message error));
       ("amount", prop paymentData "amount");
       ("currency", prop paymentData "currency");
       ("timestamp", JStr (isoNow (world st)))].

(** The [try] block of [handleRecurringPayment].  [paymentData] is [any]:
    [None] is [undefined], whose property [amount] cannot be read; the
    object literal of the first event is built before [emitEvent] is
    called. *)
Definition handleRecurringPayment_try (subscriptionId : string)
    (paymentData : option (gmap string JsVal)) (st : State)
  : (Error + unit) * State :=
  match paymentData with
  | None => (inl (undefinedRead "amount"), st)
  | Some data =>
      let st := emitEvent "subscription:recurring:payment:started"
                  (recurringStartedData subscriptionId data st) st in
      let st := emitEvent "subscription:recurring:payment:completed"
                  (recurringCompletedData subscriptionId data st) st in
      (inr tt, st)
  end.

(** [handleRecurringPayment]: the [catch] block reads [paymentData.amount]
    again while it builds the failure event. *)
Definition handleRecurringPayment (subscriptionId : string)
    (paymentData : option (gmap string JsVal)) (st : State)
  : Completion unit * State :=
  match handleRecurringPayment_try subscriptionId paymentData st with
  | (inr _, st) => (Returned tt, st)
  | (inl error, st) =>
      match paymentData with
      | None => (Threw (ThrownError (undefinedRead "amount")), st)
      | Some data =>
          let st := emitEvent "subscription:recurring:payment:failed"
                      (recurringFailedData subscriptionId error data st) st in
          (Threw (ThrownError error), st)
      end
  end.

End Subscriptions.

(** ** Observations on the event log *)

Definition eventNames (log : list Emitted) : list string :=
  eventName <$> log.

(** How many times [event] occurs in a list of names, and how many events
    named [event] a log holds. *)
Definition count_name (event : string) (names : list string) : nat :=
  length (filter (fun n => n = event) names).

Definition count_events (event : string) (log : list Emitted) : nat :=
  count_name event (eventNames log).

(** The events delivered between the state [before] a call and the state
    [after] it, oldest first. *)
Definition published `{Runtime} (before after : State) : list Emitted :=
  drop (length (delivered before)) (delivered after).

(** The call left the context objects and the retry queue as they were. *)
Definition same_store `{Runtime} (before after : State) : Prop :=
  contexts after = contexts before /\ nextContext after = nextContext before /\
  pending after = pending before /\ nextItem after = nextItem before.

(** The queue as [queueForRetry] builds it: every item is an object of its
    own, created before the next identity to be handed out. *)
Definition queue_wf `{Runtime} (st : State) : Prop :=
  NoDup (itemId <$> pending st) /\
  Forall (fun i => itemId i < nextItem st) (pending st).

(** The names of the events of one failed attempt that is followed by
    another attempt. *)
Definition retryRound : list string :=
  ["retry:attempt"; "retry:failed"; "retry:scheduled"].

(** [k] such rounds, and then the events of the attempt that ends the call. *)
Definition retryNames (k : nat) (ending : list string) : list string :=
  concat (replicate k retryRound) ++ ending.

(** Every invocation of [execute] rejects. *)
Definition always_fails `{Runtime} (op : RetryableOperation) : Prop :=
  forall w, exists e, (execute op w).1 = inl e.


(** ** Further observations on the event log *)

(** The [delay] carried by each [retry:scheduled] event of a log, oldest
    first. *)
Definition scheduledDelays (log : list Emitted) : list JsVal :=
  omap (fun e => if String.eqb (eventName e) "retry:scheduled"
                 then eventData e !! "delay" else None) log.

(** [n] successive calls of [processRetryQueue], each started when the one
    before is over. *)
Fixpoint drainCycles `{Runtime} (n : nat) (cfg : RetryConfig) (st : State)
  : State :=
  match n with
  | O => st
  | S n => drainCycles n cfg (processRetryQueue cfg st).2
  end.

(** The bus delimiter [:] as a character (code 58). *)
Definition colon : Ascii.ascii :=
  Ascii.Ascii false true false true true true false false.

(** Whether the character [c] occurs in the string [s]. *)
Fixpoint occurs (c : Ascii.ascii) (s : string) : bool :=
  match s with
  | EmptyString => false
  | String c' s' => Ascii.eqb c c' || occurs c s'
  end.

(** ** A small runtime to run the model on

    The world counts the invocations of [execute] made so far; the clock
    reads that count. *)

#[local] Instance countingRuntime : Runtime :=
  {| World := nat;
     isoNow := fun w => "t" +:+ pretty w;
     setTimeout := fun _ w => w |}.

Definition initialState `{Runtime} (w : World) : State :=
  {| world := w; delivered := []; contexts := fun _ => emptyContext;
     nextContext := 0; pending := []; nextItem := 0 |}.

(** A stand-in for the absent validator, to run the webhook pipeline on:
    a signature is valid when it equals the configured secret. *)
#[local] Instance sharedSecretValidation : Validation :=
  {| validateWebhookSignature := fun _ signature secret =>
       match secret with
       | None => inl {| message := "Webhook secret is not configured" |}
       | Some expected =>
           if String.eqb signature expected then
             inr {| valid := true; verifiedProvider := Some "stripe"; error := None |}
           else
             inr {| valid := false; verifiedProvider := Some "stripe";
                    error := Some "Invalid signature" |}
       end |}.

(** A stand-in for the realm.  A native value is named by the key under
    which [Object.prototype] holds it; of the properties of these values
    only [Object.name] is given; integers print in decimal and objects as
    [Object.prototype.toString] prints them; the bus throws when it is
    handed an event that is no string. *)
#[local] Instance standInRealm : Realm :=
  {| Native := string;
     inherited := fun key => key;
     nativeGet := fun native key =>
       if String.eqb native "constructor" && String.eqb key "name"
       then inr (Some (inl "Object"))
       else inr None;
     nonStringToString := fun v =>
       match v with
       | JNum q => inr (pretty (Qnum q / Zpos (Qden q))%Z)
       | JObj _ => inr "[object Object]"
       | _ => inr "undefined"
       end;
     emitNative := fun _ _ st =>
       (Threw (ThrownError {| message := "type.slice is not a function" |}), st) |}.

(** The config of [new RetryService()], of
    [new RetryService({ maxAttempts: 1 })] and of
    [new RetryService({ maxAttempts: 0 })]. *)
Definition only_maxAttempts (n : Z) : PartialRetryConfig :=
  {| maxAttempts_opt := Some n; initialDelay_opt := None; maxDelay_opt := None;
     backoffFactor_opt := None; strategy_opt := None |}.

Definition defaultConfig : RetryConfig := newRetryService None.

Definition singleAttempt : RetryConfig :=
  newRetryService (Some (only_maxAttempts 1)).

Definition noAttempts : RetryConfig :=
  newRetryService (Some (only_maxAttempts 0)).

(** A webhook handler with a Stripe secret, and a Stripe webhook whose
    signature is not that secret. *)
Definition stripeHandler : WebhookHandlerConfig :=
  {| stripeWebhookSecret := Some "whsec_test" |}.

Definition forgedWebhook : ProcessWebhookParams :=
  {| provider := "stripe";
     payload := {[ "type" := JStr "payment_intent.succeeded" ]};
     signature := Some "forged";
     headers := None |}.

(** The process before anything happened: no invocation made, no event
    delivered, an empty queue. *)
Definition start : State := initialState (0%nat : World).

(** An operation whose [n]-th invocation rejects with the message
    ["failure n"]. *)
Definition alwaysFails : RetryableOperation :=
  {| name := Some "charge";
     execute := fun w => (inl {| message := "failure " +:+ pretty (S w) |}, S w) |}.

(** An operation that rejects on its first invocation and resolves with
    ["ok"] afterwards. *)
Definition failsOnce : RetryableOperation :=
  {| name := Some "charge";
     execute := fun w =>
       match w with
       | O => (inl {| message := "failure 1" |}, S w)
       | S _ => (inr (JStr "ok"), S w)
       end |}.

(** The start state after [queueForRetry(alwaysFails)] on a service with
    [maxAttempts = 1], and the item that call queued. *)
Definition queuedOnce : State := queueForRetry singleAttempt alwaysFails None start.

Definition queuedItem : RetryQueueItem :=
  {| itemId := 0; operation := alwaysFails; context := 0; config := singleAttempt;
     createdAt := "t0" |}.

(** ** Further inputs to run the model on *)

(** Two items queued with one context object (the reference [0]), and the
    two items. *)
Definition sharedItem1 : RetryQueueItem :=
  {| itemId := 0; operation := alwaysFails; context := 0; config := defaultConfig;
     createdAt := "t0" |}.

Definition alwaysFailsToo : RetryableOperation :=
  {| name := None;
     execute := fun w => (inl {| message := "refused" |}, S w) |}.

Definition sharedQueue : State :=
  queueForRetry defaultConfig alwaysFailsToo (Some 0)
    (queueForRetry defaultConfig alwaysFails (Some 0) start).

Definition sharedItem2 : RetryQueueItem :=
  {| itemId := 1; operation := alwaysFailsToo; context := 0; config := defaultConfig;
     createdAt := "t0" |}.

(** One item queued on the default service, and on a service that permits
    no attempt. *)
Definition queuedDefault : State := queueForRetry defaultConfig alwaysFails None start.

Definition defaultItem : RetryQueueItem :=
  {| itemId := 0; operation := alwaysFails; context := 0; config := defaultConfig;
     createdAt := "t0" |}.

Definition queuedNoAttempts : State := queueForRetry noAttempts alwaysFails None start.

Definition noAttemptsItem : RetryQueueItem :=
  {| itemId := 0; operation := alwaysFails; context := 0; config := noAttempts;
     createdAt := "t0" |}.

(** Webhooks: a Stripe webhook signed with the secret, a PayPal webhook
    with any signature, and a handler without a Stripe secret. *)
Definition signedWebhook : ProcessWebhookParams :=
  {| provider := "stripe";
     payload := {[ "type" := JStr "payment_intent.succeeded" ]};
     signature := Some "whsec_test";
     headers := None |}.

Definition paypalWebhook : ProcessWebhookParams :=
  {| provider := "paypal";
     payload := {[ "event_type" := JStr "PAYMENT.CAPTURE.COMPLETED" ]};
     signature := Some "anything";
     headers := None |}.

Definition bareHandler : WebhookHandlerConfig :=
  {| stripeWebhookSecret := None |}.

(** Stand-ins for the absent payment collaborators: params need an amount;
    the Stripe provider resolves, the PayPal provider rejects. *)
Definition resolvingProvider : BasePaymentProvider :=
  {| providerCreatePaymentIntent := fun params w =>
       (inr {[ "id" := JStr "pi_1"; "amount" := prop (paymentDetails params) "amount" ]},
        S w);
     providerCapturePayment := fun params w =>
       (inr {[ "id" := JStr "ch_1"; "status" := JStr "succeeded" ]}, S w);
     providerRefundPayment := fun params w =>
       (inr {[ "id" := JStr "re_1" ]}, S w);
     providerGetPaymentMethods := fun customerId w => (inr (JObj ∅), S w) |}.

Definition rejectingProvider : BasePaymentProvider :=
  {| providerCreatePaymentIntent := fun _ w =>
       (inl {| message := "provider unavailable" |}, S w);
     providerCapturePayment := fun _ w =>
       (inl {| message := "provider unavailable" |}, S w);
     providerRefundPayment := fun _ w =>
       (inl {| message := "provider unavailable" |}, S w);
     providerGetPaymentMethods := fun _ w =>
       (inl {| message := "provider unavailable" |}, S w) |}.

#[local] Instance standInPayments : PaymentCollaborators :=
  {| validatePaymentParams := fun params =>
       match paymentDetails params !! "amount" with
       | Some _ => None
       | None => Some {| message := "amount is required" |}
       end;
     StripeProvider := resolvingProvider;
     PayPalProvider := rejectingProvider |}.

Definition stripePayment : PaymentParams :=
  {| paymentProvider := "stripe";
     paymentDetails := {[ "amount" := JInt 500; "paymentId" := JStr "ch_1" ]} |}.

Definition paypalPayment : PaymentParams :=
  {| paymentProvider := "paypal";
     paymentDetails := {[ "amount" := JInt 500; "paymentId" := JStr "ch_1" ]} |}.

Definition squarePayment : PaymentParams :=
  {| paymentProvider := "square"; paymentDetails := {[ "amount" := JInt 500 ]} |}.

Definition incompletePayment : PaymentParams :=
  {| paymentProvider := "square"; paymentDetails := ∅ |}.

(** A stand-in for [Math.pow]: repeated multiplication when the exponent
    is a non-negative integer, which is all [calculateDelay] hands it from
    the first attempt on. *)
Definition integerOf (y : double) : option Z :=
  match y with
  | S754_zero _ => Some 0%Z
  | S754_finite false m e =>
      if (0 <=? e)%Z then Some (Zpos m * 2 ^ e)%Z
      else if (Zpos m mod 2 ^ (- e) =? 0)%Z then Some (Zpos m / 2 ^ (- e))%Z
      else None
  | _ => None
  end.

#[local] Instance iteratedPow : Engine :=
  {| Math_pow := fun x y =>
       match integerOf y with
       | Some n => Nat.iter (Z.to_nat n) (double_mul x) (double_of_Z 1)
       | None => S754_nan
       end |}.

(** [{ initialDelay: 0, maxDelay: 60000, backoffFactor: 10, strategy:
    'exponential' }], and the default config, as numbers of the engine. *)
Definition overflowingConfig : RetryConfig64 :=
  {| initialDelay64 := double_of_Z 0; maxDelay64 := double_of_Z 60000;
     backoffFactor64 := double_of_Z 10; strategy64 := "exponential" |}.

Definition defaultConfig64 : RetryConfig64 :=
  {| initialDelay64 := double_of_Z 1000; maxDelay64 := double_of_Z 60000;
     backoffFactor64 := double_of_Z 2; strategy64 := "exponential" |}.

(** The queue of [queuedOnce], but with a context object whose count was
    set below zero before the item was queued with it. *)
Definition queuedNegative : State :=
  queueForRetry singleAttempt alwaysFails (Some 0)
    (set_context 0 {| retryCount := Some (-5)%Z; properties := ∅ |} start).

(** A signed Stripe webhook whose event type names a property that every
    object inherits. *)
Definition inheritedWebhook : ProcessWebhookParams :=
  {| provider := "stripe";
     payload := {[ "type" := JStr "__proto__" ]};
     signature := Some "whsec_test";
     headers := None |}.

(** * Properties *)

(** ** Counting event names *)

Lemma count_name_app event l1 l2 :
  count_name event (l1 ++ l2) = count_name event l1 + count_name event l2.
Proof. unfold count_name. by rewrite filter_app, length_app. Qed.

Lemma count_name_rounds event k ending :
  count_name event (retryNames k ending) =
  k * count_name event retryRound + count_name event ending.
Proof.
  unfold retryNames. rewrite count_name_app. f_equal.
  induction k as [|k IH]; [done|].
  cbn [replicate concat]. rewrite count_name_app, IH. lia.
Qed.

(** Evaluate the counts over closed lists of names. *)
Ltac count_names :=
  repeat match goal with
         | |- context [count_name ?event ?names] =>
             let c := eval vm_compute in (count_name event names) in
             change (count_name event names) with c
         end.

Lemma eventNames_app l1 l2 : eventNames (l1 ++ l2) = eventNames l1 ++ eventNames l2.
Proof. apply fmap_app. Qed.

Lemma retryNames_last k ending name :
  last (retryNames k (ending ++ [name])) = Some name.
Proof. unfold retryNames. by rewrite !app_assoc, last_snoc. Qed.

Lemma pair_snd {A B : Type} (a : A) (b : B) : (a, b).2 = b.
Proof. reflexivity. Qed.

(** ** Object literals *)

Lemma decorate_lookup_ne event timestamp data key :
  key <> "_metadata" -> decorate event timestamp data !! key = data !! key.
Proof. intros Hne. unfold decorate. by rewrite lookup_insert_ne. Qed.

Lemma decorate_lookup_metadata event timestamp data :
  decorate event timestamp data !! "_metadata" = Some (metadata event timestamp).
Proof. unfold decorate. by rewrite lookup_insert_eq. Qed.

Ltac obj_lookup :=
  unfold obj; cbn [fold_left fst snd];
  repeat (rewrite lookup_insert_ne by done); by rewrite lookup_insert_eq.

Create HintDb store.

Section RetryFacts.
Context `{Runtime}.

(** ** State bookkeeping *)

Lemma published_app before after log :
  delivered after = delivered before ++ log -> published before after = log.
Proof. intros Hd. unfold published. by rewrite Hd, drop_app_length. Qed.

Lemma same_store_refl st : same_store st st.
Proof. by repeat split. Qed.

Lemma same_store_trans st1 st2 st3 :
  same_store st1 st2 -> same_store st2 st3 -> same_store st1 st3.
Proof. unfold same_store. intros (-> & -> & -> & ->) (-> & -> & -> & ->). done. Qed.

Lemma emitEvent_delivered event data st :
  delivered (emitEvent event data st) =
  delivered st ++ [{| eventName := event;
                      eventData := decorate event (isoNow (world st)) data |}].
Proof. reflexivity. Qed.

Lemma emitEvent_world event data st : world (emitEvent event data st) = world st.
Proof. reflexivity. Qed.

Lemma emitEvent_contexts event data st :
  contexts (emitEvent event data st) = contexts st.
Proof. reflexivity. Qed.

Lemma emitEvent_pending event data st :
  pending (emitEvent event data st) = pending st.
Proof. reflexivity. Qed.

Lemma set_context_lookup ref c st : contexts (set_context ref c st) ref = c.
Proof. cbn. by rewrite Nat.eqb_refl. Qed.

Lemma emitEvent_same_store event data st0 st :
  same_store st0 st -> same_store st0 (emitEvent event data st).
Proof. intros Hs. eapply same_store_trans; [exact Hs|]. by repeat split. Qed.

Lemma set_world_delivered w st : delivered (set_world w st) = delivered st.
Proof. reflexivity. Qed.

Lemma set_world_world w st : world (set_world w st) = w.
Proof. reflexivity. Qed.

Lemma set_world_same_store w st0 st :
  same_store st0 st -> same_store st0 (set_world w st).
Proof. intros Hs. eapply same_store_trans; [exact Hs|]. by repeat split. Qed.

Lemma delay_delivered ms st : delivered (delay ms st) = delivered st.
Proof. reflexivity. Qed.

Lemma delay_world ms st : world (delay ms st) = setTimeout ms (world st).
Proof. reflexivity. Qed.

Lemma delay_same_store ms st0 st :
  same_store st0 st -> same_store st0 (delay ms st).
Proof. intros Hs. eapply same_store_trans; [exact Hs|]. by repeat split. Qed.

#[local] Opaque emitEvent set_world delay decorate.

#[local] Hint Resolve same_store_refl emitEvent_same_store set_world_same_store
  delay_same_store : store.

Lemma successData_result op ctx attempt result st :
  successData op ctx attempt result st !! "result" = Some result.
Proof. unfold successData. obj_lookup. Qed.

Lemma successData_attempt op ctx attempt result st :
  successData op ctx attempt result st !! "attempt" = Some (JInt attempt).
Proof. unfold successData. obj_lookup. Qed.

Lemma exhaustedData_error cfg op ctx error st :
  exhaustedData cfg op ctx error st !! "error" = Some (JStr (message error)).
Proof. unfold exhaustedData. obj_lookup. Qed.

(** ** The retry loop, one pass at a time *)

Lemma retryLoop_eq cfg op ctx attempt lastError st :
  retryLoop cfg op ctx attempt lastError st =
  if decide (attempt < maxAttempts cfg)%Z then
    match iteration cfg op ctx attempt st with
    | (inl finished, st1) => (finished, st1)
    | (inr (attempt1, lastError1), st1) => retryLoop cfg op ctx attempt1 lastError1 st1
    end
  else (Threw (throw_lastError lastError), st).
Proof.
  rewrite retryLoop_equation_1. unfold retryLoop_unfold_clause_1.
  destruct (Z_lt_dec attempt (maxAttempts cfg)) as [Hlt|Hge].
  - rewrite decide_True by done.
    unfold inspect.
    enough (Hgen : forall b (e : iteration cfg op ctx attempt st = b),
      retryLoop_unfold_clause_1_clause_2 cfg op ctx attempt Hlt lastError st (exist _ b e) =
      match b with
      | (inl finished, st1) => (finished, st1)
      | (inr (attempt1, lastError1), st1) => retryLoop cfg op ctx attempt1 lastError1 st1
      end) by apply Hgen.
    intros [[fin|[a1 e1]] st1] e; reflexivity.
  - by rewrite decide_False.
Qed.

(** The loop condition is false: nothing runs, [lastError] is thrown. *)
Lemma retryLoop_done cfg op ctx attempt lastError st :
  (maxAttempts cfg <= attempt)%Z ->
  retryLoop cfg op ctx attempt lastError st = (Threw (throw_lastError lastError), st).
Proof. intros Hge. rewrite retryLoop_eq, decide_False by lia. done. Qed.

(** [execute] resolves: the call returns its result. *)
Lemma retryLoop_succeeded cfg op ctx attempt lastError st result w :
  (attempt < maxAttempts cfg)%Z ->
  execute op (world st) = (inr result, w) ->
  exists st1 ev1 ev2,
    retryLoop cfg op ctx attempt lastError st = (Returned result, st1) /\
    delivered st1 = delivered st ++ [ev1; ev2] /\
    eventNames [ev1; ev2] = ["retry:attempt"; "retry:success"] /\
    eventData ev2 !! "result" = Some result /\
    eventData ev2 !! "attempt" = Some (JInt (attempt + 1)) /\
    world st1 = w /\ same_store st st1.
Proof.
  intros Hlt Hex. rewrite retryLoop_eq, decide_True by done.
  unfold iteration, run_execute. rewrite emitEvent_world, Hex.
  eexists _, _, _. split; [reflexivity|].
  rewrite !emitEvent_delivered, set_world_delivered, emitEvent_delivered,
    <- !app_assoc.
  split; [reflexivity|]. split; [reflexivity|]. cbn [eventData].
  rewrite !decorate_lookup_ne by done.
  split; [apply successData_result|]. split; [apply successData_attempt|].
  split; [by rewrite emitEvent_world, set_world_world|auto 10 with store].
Qed.

(** [execute] rejects on the last permitted attempt: the call fails with
    that very error. *)
Lemma retryLoop_failed_last cfg op ctx attempt lastError st error w :
  (attempt + 1 = maxAttempts cfg)%Z ->
  execute op (world st) = (inl error, w) ->
  exists st1 ev1 ev2 ev3,
    retryLoop cfg op ctx attempt lastError st = (Threw (ThrownError error), st1) /\
    delivered st1 = delivered st ++ [ev1; ev2; ev3] /\
    eventNames [ev1; ev2; ev3] = ["retry:attempt"; "retry:failed"; "retry:exhausted"] /\
    eventData ev3 !! "error" = Some (JStr (message error)) /\
    world st1 = w /\ same_store st st1.
Proof.
  intros Hlast Hex. rewrite retryLoop_eq, decide_True by lia.
  unfold iteration, run_execute. rewrite emitEvent_world, Hex.
  apply Z.eqb_eq in Hlast. rewrite Hlast.
  eexists _, _, _, _. split; [reflexivity|].
  rewrite !emitEvent_delivered, set_world_delivered, emitEvent_delivered,
    <- !app_assoc.
  split; [reflexivity|]. split; [reflexivity|]. cbn [eventData].
  rewrite !decorate_lookup_ne by done.
  split; [apply exhaustedData_error|].
  split; [by rewrite !emitEvent_world, set_world_world|auto 10 with store].
Qed.

(** [execute] rejects and attempts remain: the loop goes round again after
    the computed delay. *)
Lemma retryLoop_failed_step cfg op ctx attempt lastError st error w :
  (attempt + 1 < maxAttempts cfg)%Z ->
  execute op (world st) = (inl error, w) ->
  exists st1 ev1 ev2 ev3,
    retryLoop cfg op ctx attempt lastError st =
      retryLoop cfg op ctx (attempt + 1) (Some error) st1 /\
    delivered st1 = delivered st ++ [ev1; ev2; ev3] /\
    eventNames [ev1; ev2; ev3] = retryRound /\
    world st1 = setTimeout (calculateDelay cfg (attempt + 1)) w /\
    same_store st st1.
Proof.
  intros Hlt Hex. rewrite retryLoop_eq, decide_True by lia.
  unfold iteration, run_execute. rewrite emitEvent_world, Hex.
  assert (Hne : (attempt + 1 =? maxAttempts cfg)%Z = false) by (apply Z.eqb_neq; lia).
  rewrite Hne.
  eexists _, _, _, _. split; [reflexivity|].
  rewrite delay_delivered, !emitEvent_delivered, set_world_delivered,
    emitEvent_delivered, <- !app_assoc.
  split; [reflexivity|]. split; [reflexivity|].
  split; [by rewrite delay_world, !emitEvent_world, set_world_world
         |auto 10 with store].
Qed.

(** Everything the loop publishes from [attempt] on: [k] failed rounds,
    then the attempt that ends the call. *)
Lemma retryLoop_trace cfg op ctx (n : nat) : forall attempt lastError st,
  Z.to_nat (maxAttempts cfg - attempt) = n ->
  (attempt < maxAttempts cfg)%Z ->
  exists (k : nat) (log : list Emitted) (ev : Emitted),
    delivered (retryLoop cfg op ctx attempt lastError st).2 = delivered st ++ log ++ [ev] /\
    same_store st (retryLoop cfg op ctx attempt lastError st).2 /\
    match (retryLoop cfg op ctx attempt lastError st).1 with
    | Returned v =>
        eventNames (log ++ [ev]) = retryNames k ["retry:attempt"; "retry:success"] /\
        eventData ev !! "result" = Some v /\
        eventData ev !! "attempt" = Some (JInt (attempt + Z.of_nat k + 1))
    | Threw t =>
        eventNames (log ++ [ev]) =
          retryNames k ["retry:attempt"; "retry:failed"; "retry:exhausted"] /\
        (attempt + Z.of_nat k + 1 = maxAttempts cfg)%Z /\
        exists e, t = ThrownError e /\ eventData ev !! "error" = Some (JStr (message e))
    end.
Proof.
  induction n as [|n IH]; intros attempt lastError st Hn Hlt; [lia|].
  destruct (execute op (world st)) as [[error|result] w] eqn:Hex.
  - destruct (decide (attempt + 1 = maxAttempts cfg)%Z) as [Hlast|Hmore].
    + destruct (retryLoop_failed_last cfg op ctx attempt lastError st error w Hlast Hex)
        as (st1 & ev1 & ev2 & ev3 & -> & Hd & Hnames & Herr & _ & Hs).
      exists 0%nat, [ev1; ev2], ev3. cbn [fst snd].
      split; [by rewrite Hd|]. split; [done|].
      split; [exact Hnames|]. split; [lia|]. by exists error.
    + destruct (retryLoop_failed_step cfg op ctx attempt lastError st error w)
        as (st1 & ev1 & ev2 & ev3 & -> & Hd & Hnames & _ & Hs); [lia|done|].
      destruct (IH (attempt + 1)%Z (Some error) st1) as (k & log & ev & Hd' & Hs' & Hr);
        [lia|lia|].
      exists (S k), ([ev1; ev2; ev3] ++ log), ev.
      split; [by rewrite Hd', Hd, <- !app_assoc|].
      split; [by eapply same_store_trans|].
      assert (Hcons : forall ending,
        eventNames (log ++ [ev]) = retryNames k ending ->
        eventNames (([ev1; ev2; ev3] ++ log) ++ [ev]) = retryNames (S k) ending).
      { intros ending Hl. rewrite <- app_assoc, eventNames_app, Hl, Hnames.
        unfold retryNames. cbn [replicate concat]. by rewrite <- app_assoc. }
      destruct (retryLoop cfg op ctx (attempt + 1) (Some error) st1).1 as [v|t].
      * destruct Hr as (Hl & Hres & Hatt). split; [by apply Hcons|]. split; [done|].
        rewrite Hatt. do 2 f_equal. lia.
      * destruct Hr as (Hl & Hmax & Herr). split; [by apply Hcons|]. split; [lia|done].
  - destruct (retryLoop_succeeded cfg op ctx attempt lastError st result w Hlt Hex)
      as (st1 & ev1 & ev2 & -> & Hd & Hnames & Hres & Hatt & _ & Hs).
    exists 0%nat, [ev1], ev2. cbn [fst snd].
    split; [by rewrite Hd|]. split; [done|].
    split; [exact Hnames|]. split; [done|]. rewrite Hatt. do 2 f_equal. lia.
Qed.

(** [executeWithRetry] never touches the context objects or the queue. *)
Lemma executeWithRetry_same_store cfg op ctx st :
  same_store st (executeWithRetry cfg op ctx st).2.
Proof.
  unfold executeWithRetry.
  destruct (decide (0 < maxAttempts cfg)%Z) as [Hpos|Hnone].
  - destruct (retryLoop_trace cfg op ctx _ 0%Z None st eq_refl Hpos)
      as (k & log & ev & _ & Hs & _). exact Hs.
  - rewrite retryLoop_done by lia. apply same_store_refl.
Qed.

(** ** C1 *)

(** C1. For every operation and every config with [maxAttempts >= 1]: when
    [executeWithRetry] returns, the events it published hold exactly one
    [retry:success], which is the last event, carries the returned result
    and is numbered with the attempt that won; when it throws, they hold
    exactly one [retry:exhausted], which is the last event and carries the
    message of the error thrown. *)
Theorem executeWithRetry_one_outcome_event cfg op ctx st :
  (1 <= maxAttempts cfg)%Z ->
  let outcome := executeWithRetry cfg op ctx st in
  let log := published st outcome.2 in
  delivered outcome.2 = delivered st ++ log /\
  match outcome.1 with
  | Returned v =>
      count_events "retry:success" log = 1 /\
      count_events "retry:exhausted" log = 0 /\
      exists ev, last log = Some ev /\ eventName ev = "retry:success" /\
        eventData ev !! "result" = Some v /\
        eventData ev !! "attempt" =
          Some (JInt (Z.of_nat (count_events "retry:attempt" log)))
  | Threw t =>
      count_events "retry:exhausted" log = 1 /\
      count_events "retry:success" log = 0 /\
      exists ev e, last log = Some ev /\ eventName ev = "retry:exhausted" /\
        t = ThrownError e /\
        eventData ev !! "error" = Some (JStr (message e))
  end.
Proof.
  intros Hmax outcome log. subst outcome log. unfold executeWithRetry.
  destruct (retryLoop_trace cfg op ctx _ 0%Z None st eq_refl)
    as (k & log & ev & Hd & _ & Hr); [lia|].
  rewrite (published_app _ _ _ Hd). split; [exact Hd|].
  assert (Hlast : last (log ++ [ev]) = Some ev) by apply last_snoc.
  assert (Hname : forall ending name,
    eventNames (log ++ [ev]) = retryNames k (ending ++ [name]) -> eventName ev = name).
  { intros ending name Hl.
    assert (Hn : last (eventNames (log ++ [ev])) = Some name)
      by (rewrite Hl; apply retryNames_last).
    rewrite eventNames_app in Hn.
    change (eventNames [ev]) with [eventName ev] in Hn.
    rewrite last_snoc in Hn. by injection Hn. }
  unfold count_events.
  destruct (retryLoop cfg op ctx 0 None st).1 as [v|t].
  - destruct Hr as (Hl & Hres & Hatt). rewrite Hl, !count_name_rounds.
    count_names. split; [lia|]. split; [lia|].
    exists ev. split; [done|].
    split; [exact (Hname ["retry:attempt"] "retry:success" Hl)|]. split; [done|].
    rewrite Hatt. do 2 f_equal. lia.
  - destruct Hr as (Hl & Hk & e & -> & Herr). rewrite Hl, !count_name_rounds.
    count_names. split; [lia|]. split; [lia|].
    exists ev, e. split; [done|].
    split; [exact (Hname ["retry:attempt"; "retry:failed"] "retry:exhausted" Hl)|].
    done.
Qed.

(** ** C2 *)

(** The outcome of an invocation of an operation that always fails. *)
Lemma always_fails_execute op w :
  always_fails op -> exists e w1, execute op w = (inl e, w1).
Proof.
  intros Hfail. destruct (Hfail w) as [e He].
  destruct (execute op w) as [r w1]. cbn in He. subst r. by exists e, w1.
Qed.

(** C2. With an operation whose [execute] always fails and
    [maxAttempts = 3], [executeWithRetry] invokes [execute] three times,
    publishes [retry:attempt], [retry:failed], [retry:scheduled] twice over,
    then [retry:attempt], [retry:failed], [retry:exhausted] (so 3, 3, 2 and
    1 of each), and throws the error of the third invocation. *)
Theorem executeWithRetry_always_fails_three cfg op ctx st :
  always_fails op ->
  maxAttempts cfg = 3%Z ->
  exists e1 e2 e3 w1 w2 w3,
    execute op (world st) = (inl e1, w1) /\
    execute op (setTimeout (calculateDelay cfg 1) w1) = (inl e2, w2) /\
    execute op (setTimeout (calculateDelay cfg 2) w2) = (inl e3, w3) /\
    let outcome := executeWithRetry cfg op ctx st in
    let log := published st outcome.2 in
    outcome.1 = Threw (ThrownError e3) /\
    world outcome.2 = w3 /\
    eventNames log =
      ["retry:attempt"; "retry:failed"; "retry:scheduled";
       "retry:attempt"; "retry:failed"; "retry:scheduled";
       "retry:attempt"; "retry:failed"; "retry:exhausted"] /\
    count_events "retry:attempt" log = 3 /\
    count_events "retry:failed" log = 3 /\
    count_events "retry:scheduled" log = 2 /\
    count_events "retry:exhausted" log = 1 /\
    exists ev, last log = Some ev /\
      eventData ev !! "error" = Some (JStr (message e3)).
Proof.
  intros Hfail Hmax.
  destruct (always_fails_execute op (world st) Hfail) as (e1 & w1 & Hex1).
  destruct (retryLoop_failed_step cfg op ctx 0 None st e1 w1)
    as (st1 & a1 & f1 & s1 & Hloop1 & Hd1 & Hn1 & Hw1 & _); [lia|done|].
  destruct (always_fails_execute op (world st1) Hfail) as (e2 & w2 & Hex2).
  destruct (retryLoop_failed_step cfg op ctx 1 (Some e1) st1 e2 w2)
    as (st2 & a2 & f2 & s2 & Hloop2 & Hd2 & Hn2 & Hw2 & _); [lia|done|].
  destruct (always_fails_execute op (world st2) Hfail) as (e3 & w3 & Hex3).
  destruct (retryLoop_failed_last cfg op ctx 2 (Some e2) st2 e3 w3)
    as (st3 & a3 & f3 & x3 & Hloop3 & Hd3 & Hn3 & Herr & Hw3 & _); [lia|done|].
  change (0 + 1)%Z with 1%Z in *. change (1 + 1)%Z with 2%Z in *.
  exists e1, e2, e3, w1, w2, w3.
  split; [done|]. split; [by rewrite <- Hw1|]. split; [by rewrite <- Hw2|].
  unfold executeWithRetry. rewrite Hloop1, Hloop2, Hloop3. cbn [fst snd].
  assert (Hd : delivered st3 =
            delivered st ++ [a1; f1; s1] ++ [a2; f2; s2] ++ [a3; f3; x3])
    by (by rewrite Hd3, Hd2, Hd1, <- !app_assoc).
  rewrite (published_app _ _ _ Hd).
  assert (Hnames : eventNames ([a1; f1; s1] ++ [a2; f2; s2] ++ [a3; f3; x3]) =
            ["retry:attempt"; "retry:failed"; "retry:scheduled";
             "retry:attempt"; "retry:failed"; "retry:scheduled";
             "retry:attempt"; "retry:failed"; "retry:exhausted"])
    by (by rewrite !eventNames_app, Hn1, Hn2, Hn3).
  unfold count_events. rewrite Hnames. count_names.
  repeat (split; [done|]). by exists x3.
Qed.

(** ** C6 *)

(** C6. With an operation whose [execute] fails on the first invocation
    and succeeds on the second, and [maxAttempts >= 2], [executeWithRetry]
    publishes [retry:attempt], [retry:failed], [retry:scheduled],
    [retry:attempt], [retry:success] and nothing else, returns the result of
    the second invocation, and leaves the world as the second invocation
    left it: [execute] is not invoked a third time. *)
Theorem executeWithRetry_fails_once_then_succeeds cfg op ctx st e w1 result w2 :
  (2 <= maxAttempts cfg)%Z ->
  execute op (world st) = (inl e, w1) ->
  execute op (setTimeout (calculateDelay cfg 1) w1) = (inr result, w2) ->
  let outcome := executeWithRetry cfg op ctx st in
  let log := published st outcome.2 in
  outcome.1 = Returned result /\
  world outcome.2 = w2 /\
  eventNames log =
    ["retry:attempt"; "retry:failed"; "retry:scheduled";
     "retry:attempt"; "retry:success"] /\
  count_events "retry:attempt" log = 2 /\
  count_events "retry:failed" log = 1 /\
  count_events "retry:scheduled" log = 1 /\
  count_events "retry:success" log = 1 /\
  count_events "retry:exhausted" log = 0 /\
  exists ev, last log = Some ev /\ eventData ev !! "result" = Some result.
Proof.
  intros Hmax Hex1 Hex2.
  destruct (retryLoop_failed_step cfg op ctx 0 None st e w1)
    as (st1 & a1 & f1 & s1 & Hloop1 & Hd1 & Hn1 & Hw1 & _); [lia|done|].
  change (0 + 1)%Z with 1%Z in *. rewrite <- Hw1 in Hex2.
  destruct (retryLoop_succeeded cfg op ctx 1 (Some e) st1 result w2)
    as (st2 & a2 & ok & Hloop2 & Hd2 & Hn2 & Hres & _ & Hw2 & _); [lia|done|].
  cbv zeta. unfold executeWithRetry. rewrite Hloop1, Hloop2. cbn [fst snd].
  assert (Hd : delivered st2 = delivered st ++ [a1; f1; s1] ++ [a2; ok])
    by (by rewrite Hd2, Hd1, <- !app_assoc).
  rewrite (published_app _ _ _ Hd).
  assert (Hnames : eventNames ([a1; f1; s1] ++ [a2; ok]) =
            ["retry:attempt"; "retry:failed"; "retry:scheduled";
             "retry:attempt"; "retry:success"])
    by (by rewrite !eventNames_app, Hn1, Hn2).
  unfold count_events. rewrite Hnames. count_names.
  repeat (split; [done|]). by exists ok.
Qed.

(** ** C10 *)

(** C10. A [maxAttempts] supplied to the constructor survives it: the
    [|| 3] default replaces a supplied [0], but the trailing spread puts the
    supplied value back.  When that value is [0] or less,
    [executeWithRetry] changes nothing (no invocation of [execute], no
    event) and throws [undefined]. *)
Theorem executeWithRetry_no_attempts (supplied : PartialRetryConfig) (n : Z)
    op ctx st :
  maxAttempts_opt supplied = Some n ->
  (n <= 0)%Z ->
  let cfg := newRetryService (Some supplied) in
  maxAttempts (defaulted (Some supplied)) = (if (n =? 0)%Z then 3 else n)%Z /\
  maxAttempts cfg = n /\
  executeWithRetry cfg op ctx st = (Threw ThrownUndefined, st) /\
  published st (executeWithRetry cfg op ctx st).2 = [].
Proof.
  intros Hsupplied Hn cfg.
  assert (Hcfg : maxAttempts cfg = n)
    by (subst cfg; unfold newRetryService, spread; cbn; by rewrite Hsupplied).
  assert (Hrun : executeWithRetry cfg op ctx st = (Threw ThrownUndefined, st)).
  { unfold executeWithRetry. rewrite retryLoop_done by lia. done. }
  split; [unfold defaulted; cbn; by rewrite Hsupplied|].
  split; [done|]. split; [done|].
  rewrite Hrun. apply published_app. by rewrite app_nil_r.
Qed.

End RetryFacts.

(** ** Backoff delays *)







(** ** Backoff delays in the arithmetic of the engine *)

Lemma double_le_refl (x : double) : x <> S754_nan -> double_le x x = true.
Proof.
  unfold double_le, SFleb. destruct x as [s|s| |s m e]; cbn [SFcompare]; try done.
  - by destruct s.
  - rewrite Z.compare_refl, Pos.compare_cont_refl. by destruct s.
Qed.

Lemma Math_min_le_r (x y : double) :
  Math_min x y = S754_nan \/ double_le (Math_min x y) y = true.
Proof.
  assert (Hlt : forall u v : double, SFltb u v = true -> double_le u v = true).
  { intros u v. unfold SFltb, double_le, SFleb.
    by destruct (SFcompare u v) as [[]|]. }
  assert (Hcase : forall u v : double, v <> S754_nan ->
            double_le (if SFltb u v then u else v) v = true).
  { intros u v Hv. destruct (SFltb u v) eqn:Hcmp; [by apply Hlt|].
    by apply double_le_refl. }
  destruct x as [sx|sx| |sx mx ex], y as [sy|sy| |sy my ey];
    try (by left); right; try (by apply Hcase); reflexivity.
Qed.

(** C5, where the code leaves it. With [initialDelay] zero and a power
    that overflows to [Infinity], the exponential delay is
    [Math.min(0 * Infinity, maxDelay)], which is NaN: it is not at most
    [maxDelay], and no earlier delay is at most it. *)
Theorem calculateDelay64_not_a_number `{Engine} (cfg : RetryConfig64) (a : Z) :
  strategy64 cfg = "exponential" ->
  initialDelay64 cfg = S754_zero false ->
  Math_pow (backoffFactor64 cfg) (double_of_Z (a - 1)) = S754_infinity false ->
  calculateDelay64 cfg a = S754_nan /\
  double_le (calculateDelay64 cfg a) (maxDelay64 cfg) = false /\
  forall earlier : Z,
    double_le (calculateDelay64 cfg earlier) (calculateDelay64 cfg a) = false.
Proof.
  intros Hstrategy Hzero Hpow.
  assert (Hnan : calculateDelay64 cfg a = S754_nan).
  { unfold calculateDelay64. rewrite Hstrategy, Hzero, Hpow. reflexivity. }
  rewrite Hnan. split; [reflexivity|]. split; [reflexivity|].
  intros earlier. unfold double_le, SFleb.
  by destruct (calculateDelay64 cfg earlier).
Qed.

(** ** Event bus *)

Section EventBusFacts.
Context `{Runtime}.

Lemma metadata_fields event timestamp :
  exists m : gmap string JsVal,
    metadata event timestamp = JObj m /\
    m !! "event" = Some (JStr event) /\
    m !! "timestamp" = Some (JStr timestamp) /\
    m !! "source" = Some (JStr "checkout-core") /\
    dom m = {[ "event"; "timestamp"; "source" ]}.
Proof.
  eexists. split; [reflexivity|].
  split; [obj_lookup|]. split; [obj_lookup|]. split; [obj_lookup|].
  unfold obj. cbn [fold_left fst snd].
  rewrite !dom_insert_L, dom_empty_L. set_solver.
Qed.

(** C9. The event value [emitEvent] hands to the listeners has every
    property of the input payload unchanged, except [_metadata], which is
    [{ event, timestamp, source: 'checkout-core' }] whatever the caller
    supplied under that key. *)
Theorem emitEvent_payload_frame event (data : gmap string JsVal) st :
  exists (ev : Emitted) (m : gmap string JsVal),
    delivered (emitEvent event data st) = delivered st ++ [ev] /\
    eventName ev = event /\
    delete "_metadata" (eventData ev) = delete "_metadata" data /\
    eventData ev !! "_metadata" = Some (JObj m) /\
    m !! "event" = Some (JStr event) /\
    m !! "timestamp" = Some (JStr (isoNow (world st))) /\
    m !! "source" = Some (JStr "checkout-core") /\
    dom m = {[ "event"; "timestamp"; "source" ]}.
Proof.
  destruct (metadata_fields event (isoNow (world st)))
    as (m & Hm & Hevent & Htime & Hsource & Hdom).
  exists {| eventName := event;
            eventData := decorate event (isoNow (world st)) data |}, m.
  split; [apply emitEvent_delivered|]. split; [reflexivity|]. cbn [eventData].
  split; [unfold decorate; apply delete_insert_eq|].
  split; [by rewrite decorate_lookup_metadata, Hm|]. done.
Qed.

End EventBusFacts.

(** ** Webhook pipeline *)

Section WebhookFacts.
Context `{Runtime} `{Validation} `{!Realm}.

#[local] Opaque emitEvent decorate.

(** The event map of a provider that names no inherited property is a plain
    object: one of the two tables, or the empty object. *)
Lemma getEventMap_plain provider :
  provider ∉ objectPrototypeKeys ->
  getEventMap provider = inl (default ∅ (maps !! provider)).
Proof.
  intros Hplain. unfold getEventMap.
  destruct (maps !! provider) as [table|]; [done|].
  by rewrite bool_decide_eq_false_2.
Qed.

Lemma getEventMap_table provider table :
  getEventMap provider = inl table ->
  table = default ∅ (maps !! provider).
Proof.
  unfold getEventMap. destruct (maps !! provider) as [own|]; cbn [default].
  - by intros [= <-].
  - by destruct (bool_decide _); intros [= <-].
Qed.

Lemma internalEvent_unmapped provider eventType table :
  getEventMap provider = inl table ->
  table !! eventType = None ->
  eventType ∉ objectPrototypeKeys ->
  internalEvent provider (JStr eventType)
  = inr (inl ("webhook:" +:+ provider +:+ ":" +:+ eventType)).
Proof.
  intros Hmap Hnone Hplain. unfold internalEvent. cbn [toString].
  rewrite Hmap. cbn [eventMapGet]. rewrite Hnone.
  by rewrite bool_decide_eq_false_2.
Qed.

Lemma routedData_fields provider eventType payload st :
  routedData provider eventType payload st !! "provider" = Some (JStr provider) /\
  routedData provider eventType payload st !! "originalEvent" = Some eventType /\
  routedData provider eventType payload st !! "payload" = Some (JObj payload).
Proof. unfold routedData. split; [obj_lookup|]. split; obj_lookup. Qed.

(** Routing under a name that is a string: two events, and the call
    returns. *)
Lemma routeWebhookEvent_delivered provider eventType name payload st :
  internalEvent provider eventType = inr (inl name) ->
  exists after ev generic,
    routeWebhookEvent provider eventType payload st = (Returned tt, after) /\
    delivered after = delivered st ++ [ev; generic] /\
    world after = world st /\
    eventName ev = name /\
    eventData ev !! "provider" = Some (JStr provider) /\
    eventData ev !! "originalEvent" = Some eventType /\
    eventData ev !! "payload" = Some (JObj payload) /\
    eventName generic = "webhook:event".
Proof.
  intros Hname.
  destruct (routedData_fields provider eventType payload st) as (Hp & Ho & Hd).
  unfold routeWebhookEvent. rewrite Hname. cbn [emitInternal].
  eexists _, _, _. split; [reflexivity|].
  rewrite !emitEvent_delivered, !emitEvent_world, <- app_assoc.
  split; [reflexivity|]. split; [reflexivity|]. split; [reflexivity|].
  cbn [eventData]. rewrite !decorate_lookup_ne by done. done.
Qed.

(** C3, as amended. For every provider whose event map is a table of the
    handler (or the empty object) and every event type that has no entry in
    it and names no property inherited from [Object.prototype],
    [routeWebhookEvent] returns, having published exactly two events: first
    one named [webhook:<provider>:<eventType>], carrying the provider, the
    raw event type and the payload, then [webhook:event].  It leaves the
    world as it was. *)
Theorem routeWebhookEvent_unmapped provider eventType table payload st :
  getEventMap provider = inl table ->
  table !! eventType = None ->
  eventType ∉ objectPrototypeKeys ->
  let outcome := routeWebhookEvent provider (JStr eventType) payload st in
  outcome.1 = Returned tt /\
  exists ev generic,
    published st outcome.2 = [ev; generic] /\
    eventName ev = "webhook:" +:+ provider +:+ ":" +:+ eventType /\
    eventData ev !! "provider" = Some (JStr provider) /\
    eventData ev !! "originalEvent" = Some (JStr eventType) /\
    eventData ev !! "payload" = Some (JObj payload) /\
    eventName generic = "webhook:event" /\
    world outcome.2 = world st.
Proof.
  intros Hmap Hnone Hplain outcome. subst outcome.
  destruct (routeWebhookEvent_delivered provider (JStr eventType) _ payload st
              (internalEvent_unmapped _ _ _ Hmap Hnone Hplain))
    as (after & ev & generic & -> & Hd & Hw & Hname & Hp & Ho & Hpl & Hg).
  split; [done|]. exists ev, generic. cbn [snd].
  by rewrite (published_app _ _ _ Hd).
Qed.

(** A verified webhook with an unmapped event type goes through: the
    pipeline returns, having published the received event, the two routed
    events and the processed event. *)
Lemma processWebhook_verified_unmapped hcfg params eventType table st :
  valid (verifyWebhook hcfg params) = true ->
  mapProviderEvent (provider params) (payload params) = JStr eventType ->
  getEventMap (provider params) = inl table ->
  table !! eventType = None ->
  eventType ∉ objectPrototypeKeys ->
  (processWebhook hcfg params st).1 = Returned tt /\
  eventNames (published st (processWebhook hcfg params st).2) =
    ["webhook:received";
     "webhook:" +:+ provider params +:+ ":" +:+ eventType;
     "webhook:event"; "webhook:processed"].
Proof.
  intros Hvalid Htype Hmap Hnone Hplain. unfold processWebhook, processWebhook_try.
  cbv zeta. rewrite Hvalid, Htype. cbn [negb].
  match goal with |- context [routeWebhookEvent ?p ?t ?pl ?s] =>
    destruct (routeWebhookEvent_delivered p t _ pl s
                (internalEvent_unmapped _ _ _ Hmap Hnone Hplain))
      as (after & ev & generic & -> & Hd & _ & Hname & _ & _ & _ & Hg)
  end.
  cbn [fst snd]. split; [done|].
  erewrite published_app;
    [|by rewrite emitEvent_delivered, Hd, emitEvent_delivered, <- !app_assoc].
  cbn [app]. unfold eventNames. rewrite !fmap_cons. cbn [eventName fmap list_fmap].
  by rewrite Hname, Hg.
Qed.

Lemma verificationFailedData_error params verification st :
  verificationFailedData params verification st !! "error" =
  Some (JOptStr (error verification)).
Proof. unfold verificationFailedData. obj_lookup. Qed.

Lemma processingFailedData_error params msg st :
  processingFailedData params msg st !! "error" = Some (JStr msg).
Proof. unfold processingFailedData. obj_lookup. Qed.

(** Stripe: a result with [valid: false] from the validator, or an
    exception thrown by it, both end in an invalid verification. *)
Lemma verifyWebhook_stripe_invalid hcfg params :
  provider params = "stripe" ->
  match validateWebhookSignature (payload params) (or_str (signature params) "")
          (stripeWebhookSecret hcfg) with
  | inr result => valid result = false
  | inl _ => True
  end ->
  valid (verifyWebhook hcfg params) = false.
Proof.
  intros Hp Hv. unfold verifyWebhook. rewrite Hp. cbn [String.eqb Ascii.eqb Bool.eqb].
  by destruct (validateWebhookSignature _ _ _).
Qed.

(** C8. When verification yields [valid: false], [processWebhook] publishes
    [webhook:verification:failed], then [webhook:processing:failed], and
    nothing else (so neither [webhook:received] nor [webhook:processed]),
    and then throws the verification error. *)
Theorem processWebhook_verification_failed hcfg params st :
  valid (verifyWebhook hcfg params) = false ->
  let verification := verifyWebhook hcfg params in
  let failure :=
    {| message := "Webhook verification failed: " +:+ template (error verification) |} in
  let outcome := processWebhook hcfg params st in
  let log := published st outcome.2 in
  outcome.1 = Threw (ThrownError failure) /\
  eventNames log = ["webhook:verification:failed"; "webhook:processing:failed"] /\
  count_events "webhook:received" log = 0 /\
  count_events "webhook:processed" log = 0 /\
  exists ev1 ev2, log = [ev1; ev2] /\
    eventData ev1 !! "error" = Some (JOptStr (error verification)) /\
    eventData ev2 !! "error" = Some (JStr (message failure)).
Proof.
  intros Hinvalid verification failure outcome log.
  subst log outcome. unfold processWebhook, processWebhook_try.
  cbv zeta. rewrite Hinvalid. cbn [negb thrown_message fst snd message].
  fold verification. fold failure.
  match goal with |- context [published st ?after] =>
    assert (Hd : delivered after = delivered st ++
      [{| eventName := "webhook:verification:failed";
          eventData := decorate "webhook:verification:failed" (isoNow (world st))
                         (verificationFailedData params verification st) |};
       {| eventName := "webhook:processing:failed";
          eventData := decorate "webhook:processing:failed" (isoNow (world st))
                         (processingFailedData params (message failure)
                            (emitEvent "webhook:verification:failed"
                               (verificationFailedData params verification st) st)) |}])
      by (by rewrite !emitEvent_delivered, emitEvent_world, <- app_assoc)
  end.
  rewrite (published_app _ _ _ Hd).
  split; [done|]. split; [done|]. split; [done|]. split; [done|].
  eexists _, _. split; [reflexivity|]. cbn [eventData].
  rewrite !decorate_lookup_ne by done.
  split; [apply verificationFailedData_error|apply processingFailedData_error].
Qed.

End WebhookFacts.

(** ** Retry queue *)

Section QueueFacts.
Context `{Runtime}.

#[local] Opaque emitEvent decorate.

(** With at least one permitted attempt, [executeWithRetry] publishes only
    events of the retry loop and, when it throws, throws an [Error]. *)
Lemma executeWithRetry_summary cfg op ctx st :
  (1 <= maxAttempts cfg)%Z ->
  exists log,
    delivered (executeWithRetry cfg op ctx st).2 = delivered st ++ log /\
    same_store st (executeWithRetry cfg op ctx st).2 /\
    count_events "retry:queue:item:failed" log = 0 /\
    match (executeWithRetry cfg op ctx st).1 with
    | Returned _ => True
    | Threw t => exists e, t = ThrownError e
    end.
Proof.
  intros Hmax. unfold executeWithRetry.
  destruct (retryLoop_trace cfg op ctx _ 0%Z None st eq_refl)
    as (k & log & ev & Hd & Hs & Hr); [lia|].
  exists (log ++ [ev]). split; [done|]. split; [done|]. unfold count_events.
  destruct (retryLoop cfg op ctx 0 None st).1 as [v|t].
  - destruct Hr as (-> & _). rewrite count_name_rounds. count_names.
    split; [lia|done].
  - destruct Hr as (-> & _ & e & -> & _). rewrite count_name_rounds. count_names.
    split; [lia|by exists e].
Qed.

(** An operation that always fails makes the loop throw. *)
Lemma retryLoop_always_fails cfg op ctx (n : nat) : forall attempt lastError st,
  always_fails op ->
  Z.to_nat (maxAttempts cfg - attempt) = n ->
  (attempt < maxAttempts cfg)%Z ->
  exists e, (retryLoop cfg op ctx attempt lastError st).1 = Threw (ThrownError e).
Proof.
  induction n as [|n IH]; intros attempt lastError st Hfail Hn Hlt; [lia|].
  destruct (always_fails_execute op (world st) Hfail) as (error & w & Hex).
  destruct (decide (attempt + 1 = maxAttempts cfg)%Z) as [Hlast|Hmore].
  - destruct (retryLoop_failed_last cfg op ctx attempt lastError st error w Hlast Hex)
      as (st1 & ev1 & ev2 & ev3 & -> & _). by exists error.
  - destruct (retryLoop_failed_step cfg op ctx attempt lastError st error w)
      as (st1 & ev1 & ev2 & ev3 & -> & _); [lia|done|].
    apply IH; [done|lia|lia].
Qed.

Lemma retryQueue_remove_contexts item st :
  contexts (retryQueue_remove item st) = contexts st.
Proof. reflexivity. Qed.

Lemma retryQueue_remove_pending item st :
  pending (retryQueue_remove item st) =
  filter (fun i => itemId i <> itemId item) (pending st).
Proof. reflexivity. Qed.

Lemma processItem_succeeded cfg item st v st1 :
  executeWithRetry cfg (operation item) (contexts st (context item)) st
    = (Returned v, st1) ->
  processItem cfg item st = (Returned tt, retryQueue_remove item st1).
Proof. intros Hinner. unfold processItem. by rewrite Hinner. Qed.

Lemma processItem_failed cfg item st e st1 :
  executeWithRetry cfg (operation item) (contexts st (context item)) st
    = (Threw (ThrownError e), st1) ->
  let count := (or_int (retryCount (contexts st1 (context item))) 0 + 1)%Z in
  let st2 := set_context (context item)
               {| retryCount := Some count;
                  properties := properties (contexts st1 (context item)) |} st1 in
  processItem cfg item st =
  if decide (maxAttempts (config item) <= count)%Z then
    (Returned tt,
     emitEvent "retry:queue:item:failed"
       (itemFailedData item count (message e) (retryQueue_remove item st2))
       (retryQueue_remove item st2))
  else (Returned tt, st2).
Proof.
  intros Hinner count st2. unfold processItem. rewrite Hinner. fold count. fold st2.
  destruct (decide (maxAttempts (config item) <= count)%Z) as [Hge|Hlt].
  - assert (Hb : (count >=? maxAttempts (config item))%Z = true)
      by (rewrite Z.geb_leb; by apply Z.leb_le).
    by rewrite Hb.
  - assert (Hb : (count >=? maxAttempts (config item))%Z = false)
      by (rewrite Z.geb_leb; apply Z.leb_gt; lia).
    by rewrite Hb.
Qed.

(** [queueForRetry] keeps the identities of the queued items distinct. *)
Lemma initialState_queue_wf w : queue_wf (initialState w).
Proof. split; [apply NoDup_nil_2|apply Forall_nil_2]. Qed.

Lemma queueForRetry_queue_wf cfg op context st :
  queue_wf st -> queue_wf (queueForRetry cfg op context st).
Proof.
  intros [Hnodup Hbound]. unfold queueForRetry.
  assert (Hgen : forall ref st0,
    pending st0 = pending st -> nextItem st0 = nextItem st ->
    queue_wf (let (retryItem, st1) := new_item cfg op ref st0 in
              emitEvent "retry:queued"
                (queuedData op (contexts (retryQueue_add retryItem st1) ref)
                   (retryQueue_add retryItem st1))
                (retryQueue_add retryItem st1))).
  { intros ref st0 Hp Hn. unfold new_item, queue_wf.
    rewrite emitEvent_pending.
    change (nextItem (emitEvent _ _ _)) with (S (nextItem st0)).
    cbn [retryQueue_add set_pending pending]. rewrite Hp, Hn. split.
    - rewrite fmap_app. apply NoDup_app. split; [done|]. split; [|apply NoDup_singleton].
      intros id Hin Hnew. apply list_elem_of_fmap in Hin as (i & -> & Hin).
      apply list_elem_of_singleton in Hnew. cbn in Hnew.
      rewrite Forall_forall in Hbound. specialize (Hbound i Hin). lia.
    - apply Forall_app. split.
      + eapply Forall_impl; [exact Hbound|]. intros i Hi. cbn in Hi. lia.
      + apply Forall_singleton. cbn. lia. }
  destruct context as [ref|]; [by apply Hgen|].
  unfold new_context. by apply Hgen.
Qed.

(** What the loop body does with one item, from the state [st] in which
    the loop reaches it. *)
Lemma processItem_effect cfg item st :
  (1 <= maxAttempts cfg)%Z ->
  let inner := executeWithRetry cfg (operation item) (contexts st (context item)) st in
  let count := (or_int (retryCount (contexts st (context item))) 0 + 1)%Z in
  let removed := filter (fun i => itemId i <> itemId item) (pending st) in
  exists log extra,
    (processItem cfg item st).1 = Returned tt /\
    delivered inner.2 = delivered st ++ log /\
    count_events "retry:queue:item:failed" log = 0 /\
    delivered (processItem cfg item st).2 = delivered inner.2 ++ extra /\
    match inner.1 with
    | Returned _ =>
        pending (processItem cfg item st).2 = removed /\ extra = []
    | Threw _ =>
        retryCount (contexts (processItem cfg item st).2 (context item)) = Some count /\
        if decide (maxAttempts (config item) <= count)%Z then
          pending (processItem cfg item st).2 = removed /\
          eventNames extra = ["retry:queue:item:failed"]
        else
          pending (processItem cfg item st).2 = pending st /\ extra = []
    end.
Proof.
  intros Hmax inner count removed. subst inner count removed.
  destruct (executeWithRetry_summary cfg (operation item)
              (contexts st (context item)) st Hmax)
    as (log & Hd & (Hctx & _ & Hpending & _) & Hcount & Hthrown).
  destruct (executeWithRetry cfg (operation item) (contexts st (context item)) st)
    as [[v|t] st1] eqn:Hinner; cbn [fst snd] in *.
  - rewrite (processItem_succeeded _ _ _ _ _ Hinner). cbn [fst snd].
    exists log, []. rewrite retryQueue_remove_pending, Hpending, app_nil_r. done.
  - destruct Hthrown as [e ->].
    rewrite (processItem_failed _ _ _ _ _ Hinner). rewrite Hctx.
    destruct (decide _) as [Hge|Hlt]; cbn [fst snd].
    + eexists log, [_].
      rewrite emitEvent_delivered, emitEvent_contexts, emitEvent_pending.
      split; [done|]. split; [done|]. split; [done|]. split; [reflexivity|].
      split; [by rewrite retryQueue_remove_contexts, set_context_lookup|].
      split; [|reflexivity].
      by rewrite <- Hpending.
    + exists log, []. rewrite app_nil_r.
      split; [done|]. split; [done|]. split; [done|]. split; [done|].
      split; [by rewrite set_context_lookup|]. done.
Qed.

Lemma processItem_returns cfg item st :
  (1 <= maxAttempts cfg)%Z -> (processItem cfg item st).1 = Returned tt.
Proof.
  intros Hmax. by destruct (processItem_effect cfg item st Hmax) as (? & ? & ? & _).
Qed.

(** An item is in the queue after the body ran for [item] exactly when it
    was there before and was not removed with [item]. *)
Lemma processItem_pending cfg item st :
  (1 <= maxAttempts cfg)%Z ->
  pending (processItem cfg item st).2 = pending st \/
  pending (processItem cfg item st).2 =
    filter (fun i => itemId i <> itemId item) (pending st).
Proof.
  intros Hmax.
  destruct (processItem_effect cfg item st Hmax) as (log & extra & _ & _ & _ & _ & Hr).
  cbv zeta in Hr.
  destruct (executeWithRetry _ _ _ _).1; [right; apply Hr|].
  destruct Hr as [_ Hr]. destruct (decide _); [right|left]; apply Hr.
Qed.

Lemma processItems_nil cfg st : processItems cfg [] st = (Returned tt, st).
Proof. reflexivity. Qed.

Lemma processItems_cons cfg item rest st :
  (1 <= maxAttempts cfg)%Z ->
  processItems cfg (item :: rest) st = processItems cfg rest (processItem cfg item st).2.
Proof.
  intros Hmax. cbn [processItems].
  pose proof (processItem_returns cfg item st Hmax) as Hr.
  destruct (processItem cfg item st) as [r st1]. cbn in Hr. by subst r.
Qed.

Lemma processItems_app cfg l1 l2 : forall st,
  (1 <= maxAttempts cfg)%Z ->
  processItems cfg (l1 ++ l2) st = processItems cfg l2 (processItems cfg l1 st).2.
Proof.
  induction l1 as [|item l1 IH]; intros st Hmax; [done|].
  cbn [app]. rewrite !processItems_cons by done. by apply IH.
Qed.

Lemma processItems_returns cfg items : forall st,
  (1 <= maxAttempts cfg)%Z -> (processItems cfg items st).1 = Returned tt.
Proof.
  induction items as [|item items IH]; intros st Hmax; [done|].
  rewrite processItems_cons by done. by apply IH.
Qed.

(** The loop only ever removes items. *)
Lemma processItems_pending_subset cfg items : forall st i,
  (1 <= maxAttempts cfg)%Z ->
  i ∈ pending (processItems cfg items st).2 -> i ∈ pending st.
Proof.
  induction items as [|item items IH]; intros st i Hmax Hin; [done|].
  rewrite processItems_cons in Hin by done. apply IH in Hin; [|done].
  destruct (processItem_pending cfg item st Hmax) as [Heq|Heq]; rewrite Heq in Hin.
  - done.
  - by apply list_elem_of_filter in Hin as [_ Hin].
Qed.

(** It removes by identity: an item whose identity is not among the items
    processed stays. *)
Lemma processItems_pending_keeps cfg items : forall st i,
  (1 <= maxAttempts cfg)%Z ->
  i ∈ pending st -> itemId i ∉ itemId <$> items ->
  i ∈ pending (processItems cfg items st).2.
Proof.
  induction items as [|item items IH]; intros st i Hmax Hin Hid; [done|].
  rewrite fmap_cons, not_elem_of_cons in Hid. destruct Hid as [Hne Hid].
  rewrite processItems_cons by done. apply IH; [done| |done].
  destruct (processItem_pending cfg item st Hmax) as [Heq|Heq]; rewrite Heq.
  - done.
  - by apply list_elem_of_filter.
Qed.

(** C7, as amended. Take a service whose config permits at least one
    attempt, a queue of items with distinct identities, and any item of it.
    One call to [processRetryQueue] reaches the item in some state
    [reached], runs [executeWithRetry] on it, and:
    - if that succeeds, the item is gone from the queue when the call ends;
    - if that fails, the [retryCount] of the item's context is one more than
      it was ([undefined] counting as 0); when the new count is at least the
      item's [config.maxAttempts], the item is gone from the queue when the
      call ends and exactly one [retry:queue:item:failed] event was published
      for it, otherwise the item is still queued and nothing more was
      published for it.
    In particular an item whose operation always fails, whose
    [config.maxAttempts] is 1 and whose count is not negative is gone after
    the call, with exactly one [retry:queue:item:failed] event. *)
Theorem processRetryQueue_item cfg st before item after :
  (1 <= maxAttempts cfg)%Z ->
  NoDup (itemId <$> pending st) ->
  pending st = before ++ item :: after ->
  let reached := (processItems cfg before st).2 in
  let inner :=
    executeWithRetry cfg (operation item) (contexts reached (context item)) reached in
  let leaving := (processItem cfg item reached).2 in
  let final := processRetryQueue cfg st in
  let count := (or_int (retryCount (contexts reached (context item))) 0 + 1)%Z in
  final = processItems cfg after leaving /\
  final.1 = Returned tt /\
  match inner.1 with
  | Returned _ =>
      (itemId item ∉ itemId <$> pending final.2) /\
      published inner.2 leaving = []
  | Threw _ =>
      retryCount (contexts leaving (context item)) = Some count /\
      if decide (maxAttempts (config item) <= count)%Z then
        (itemId item ∉ itemId <$> pending final.2) /\
        eventNames (published inner.2 leaving) = ["retry:queue:item:failed"]
      else
        item ∈ pending final.2 /\
        published inner.2 leaving = []
  end /\
  (always_fails (operation item) ->
   maxAttempts (config item) = 1%Z ->
   (0 <= or_int (retryCount (contexts reached (context item))) 0)%Z ->
   (itemId item ∉ itemId <$> pending final.2) /\
   count_events "retry:queue:item:failed" (published reached leaving) = 1).
Proof.
  intros Hmax Hnodup Hpending reached inner leaving final count.
  assert (Hfinal : final = processItems cfg after leaving).
  { subst final leaving reached. unfold processRetryQueue, retryQueue_getPending.
    by rewrite Hpending, processItems_app, processItems_cons. }
  rewrite Hpending, fmap_app, fmap_cons in Hnodup.
  apply NoDup_app in Hnodup as (_ & Hbefore & Hafter).
  apply NoDup_cons in Hafter as [Hafter _].
  assert (Hreached : item ∈ pending reached).
  { apply processItems_pending_keeps; [done| |].
    - rewrite Hpending. apply elem_of_app. right. apply elem_of_cons. by left.
    - intros Hin. apply (Hbefore _ Hin). apply elem_of_cons. by left. }
  assert (Hgone :
    pending leaving = filter (fun i => itemId i <> itemId item) (pending reached) ->
    itemId item ∉ (itemId <$> pending final.2)).
  { intros Hleft Hin. apply list_elem_of_fmap in Hin as (i & Hid & Hin).
    rewrite Hfinal in Hin. apply processItems_pending_subset in Hin; [|done].
    rewrite Hleft in Hin. apply list_elem_of_filter in Hin as [Hne _]. by apply Hne. }
  assert (Hstays : pending leaving = pending reached -> item ∈ pending final.2).
  { intros Hleft. rewrite Hfinal.
    apply processItems_pending_keeps; [done|by rewrite Hleft|done]. }
  destruct (processItem_effect cfg item reached Hmax)
    as (log & extra & _ & Hd & Hlog & Hextra & Hr).
  fold inner leaving count in Hd, Hextra, Hr.
  assert (Hpublished : published inner.2 leaving = extra) by by apply published_app.
  rewrite Hpublished.
  split; [done|]. split; [rewrite Hfinal; by apply processItems_returns|].
  split.
  - destruct inner.1 as [v|t].
    + destruct Hr as [Hleft ->]. split; [by apply Hgone|done].
    + destruct Hr as [Hcount Hr]. split; [done|].
      destruct (decide _) as [Hge|Hlt].
      * destruct Hr as [Hleft Hnames]. split; [by apply Hgone|done].
      * destruct Hr as [Hleft ->]. split; [by apply Hstays|done].
  - intros Hfail Hone Hnonneg.
    destruct (retryLoop_always_fails cfg (operation item)
                (contexts reached (context item)) _ 0%Z None reached Hfail eq_refl)
      as [e He]; [lia|].
    fold (executeWithRetry cfg (operation item)
            (contexts reached (context item)) reached) in He.
    fold inner in He. rewrite He in Hr. destruct Hr as [_ Hr].
    rewrite decide_True in Hr by (subst count; lia).
    destruct Hr as [Hleft Hnames]. split; [by apply Hgone|].
    assert (Hall : delivered leaving = delivered reached ++ log ++ extra)
      by (by rewrite Hextra, Hd, <- app_assoc).
    rewrite (published_app _ _ _ Hall).
    unfold count_events in *. rewrite eventNames_app, count_name_app, Hlog, Hnames.
    by count_names.
Qed.

End QueueFacts.

(** * The model at concrete inputs *)

(** C1 at the default config and an operation that fails once. *)
Lemma executeWithRetry_one_outcome_event_witness :
  (1 <= maxAttempts defaultConfig)%Z /\
  count_events "retry:success"
    (published start
       (executeWithRetry defaultConfig failsOnce emptyContext
          start).2) = 1.
Proof.
  assert (Hmax : (1 <= maxAttempts defaultConfig)%Z) by (vm_compute; discriminate).
  split; [exact Hmax|].
  pose proof (executeWithRetry_one_outcome_event defaultConfig failsOnce
                emptyContext start Hmax) as Hw.
  cbv zeta in Hw.
  assert (Hout : (executeWithRetry defaultConfig failsOnce emptyContext
                    start).1 = Returned (JStr "ok"))
    by (vm_compute; reflexivity).
  rewrite Hout in Hw. exact (proj1 (proj2 Hw)).
Defined.

(** C2 at the default config ([maxAttempts = 3]). *)
Lemma executeWithRetry_always_fails_three_witness :
  always_fails alwaysFails /\
  maxAttempts defaultConfig = 3%Z /\
  exists e3,
    (executeWithRetry defaultConfig alwaysFails emptyContext start).1
      = Threw (ThrownError e3) /\
    message e3 = "failure 3".
Proof.
  assert (Hfail : always_fails alwaysFails) by (intros w; eexists; reflexivity).
  assert (Hmax : maxAttempts defaultConfig = 3%Z) by reflexivity.
  split; [exact Hfail|]. split; [exact Hmax|].
  destruct (executeWithRetry_always_fails_three defaultConfig alwaysFails
              emptyContext start Hfail Hmax)
    as (e1 & e2 & e3 & w1 & w2 & w3 & Hex1 & Hex2 & Hex3 & Hout & _).
  exists e3. split; [exact Hout|].
  injection Hex1 as _ <-. injection Hex2 as _ <-. injection Hex3 as <- _.
  reflexivity.
Defined.

(** C3 at Stripe and the event type ["something.new"]. *)
Lemma routeWebhookEvent_unmapped_witness :
  getEventMap "stripe" = inl stripeEvents /\
  stripeEvents !! "something.new" = None /\
  ("something.new" ∉ objectPrototypeKeys) /\
  (routeWebhookEvent "stripe" (JStr "something.new") ∅ start).1 = Returned tt /\
  exists ev generic,
    published start
      (routeWebhookEvent "stripe" (JStr "something.new") ∅ start).2
      = [ev; generic] /\
    eventName ev = "webhook:stripe:something.new".
Proof.
  assert (Hmap : getEventMap "stripe" = inl stripeEvents) by reflexivity.
  assert (Hnone : stripeEvents !! "something.new" = None)
    by (vm_compute; reflexivity).
  assert (Hplain : "something.new" ∉ objectPrototypeKeys)
    by (refine (bool_decide_unpack _ _); vm_compute; exact I).
  split; [exact Hmap|]. split; [exact Hnone|]. split; [exact Hplain|].
  destruct (routeWebhookEvent_unmapped "stripe" "something.new" stripeEvents ∅
              start Hmap Hnone Hplain)
    as (Hout & ev & generic & Hlog & Hname & _).
  split; [exact Hout|].
  exists ev, generic. split; [exact Hlog|exact Hname].
Defined.

(** C3 as stated fails.  For Stripe and the unmapped event type
    ["something.new"] the two events published are named
    ["webhook:stripe:something.new"] and ["webhook:event"]; no event named
    ["stripe:something.new"] is published.  And for the event type
    ["__proto__"], which has no entry in the table either, the value
    routed under is no name at all: it is the value that the table
    inherits under that key. *)
Lemma routeWebhookEvent_unmapped_not_bare_name :
  stripeEvents !! "something.new" = None /\
  eventNames
    (published start
       (routeWebhookEvent "stripe" (JStr "something.new") ∅ start).2)
    = ["webhook:stripe:something.new"; "webhook:event"] /\
  ("stripe" +:+ ":" +:+ "something.new" ∉
    eventNames
      (published start
         (routeWebhookEvent "stripe" (JStr "something.new") ∅ start).2)) /\
  stripeEvents !! "__proto__" = None /\
  internalEvent "stripe" (JStr "__proto__") = inr (inr (inherited "__proto__")).
Proof.
  split; [vm_compute; reflexivity|].
  assert (Hnames : eventNames
    (published start
       (routeWebhookEvent "stripe" (JStr "something.new") ∅ start).2)
    = ["webhook:stripe:something.new"; "webhook:event"]) by (vm_compute; reflexivity).
  split; [exact Hnames|]. rewrite Hnames.
  split; [|split; vm_compute; reflexivity].
  intros Hin. apply elem_of_cons in Hin as [Hin|Hin]; [discriminate|].
  apply elem_of_cons in Hin as [Hin|Hin]; [discriminate|].
  by apply elem_of_nil in Hin.
Qed.


(** C5 at [{ initialDelay: 0, maxDelay: 60000, backoffFactor: 10 }] and the
    attempt 400: [Math.pow(10, 399)] is [Infinity]. *)
Lemma calculateDelay64_not_a_number_witness :
  strategy64 overflowingConfig = "exponential" /\
  initialDelay64 overflowingConfig = S754_zero false /\
  Math_pow (backoffFactor64 overflowingConfig) (double_of_Z (400 - 1))
    = S754_infinity false /\
  calculateDelay64 overflowingConfig 400 = S754_nan /\
  double_le (calculateDelay64 overflowingConfig 400) (maxDelay64 overflowingConfig)
    = false /\
  double_le (calculateDelay64 overflowingConfig 300)
            (calculateDelay64 overflowingConfig 400) = false.
Proof.
  assert (Hstrategy : strategy64 overflowingConfig = "exponential") by reflexivity.
  assert (Hzero : initialDelay64 overflowingConfig = S754_zero false) by reflexivity.
  assert (Hpow : Math_pow (backoffFactor64 overflowingConfig) (double_of_Z (400 - 1))
                 = S754_infinity false) by (vm_compute; reflexivity).
  split; [exact Hstrategy|]. split; [exact Hzero|]. split; [exact Hpow|].
  destruct (calculateDelay64_not_a_number overflowingConfig 400 Hstrategy Hzero Hpow)
    as (Hnan & Hbound & Hearlier).
  split; [exact Hnan|]. split; [exact Hbound|]. exact (Hearlier 300%Z).
Defined.

(** C6 at the default config. *)
Lemma executeWithRetry_fails_once_then_succeeds_witness :
  (2 <= maxAttempts defaultConfig)%Z /\
  (executeWithRetry defaultConfig failsOnce emptyContext
     start).1 = Returned (JStr "ok") /\
  world (executeWithRetry defaultConfig failsOnce emptyContext start).2 = 2%nat.
Proof.
  assert (Hmax : (2 <= maxAttempts defaultConfig)%Z) by (vm_compute; discriminate).
  split; [exact Hmax|].
  destruct (@executeWithRetry_fails_once_then_succeeds countingRuntime
              defaultConfig failsOnce emptyContext start
              {| message := "failure 1" |} 1%nat (JStr "ok") 2%nat
              Hmax eq_refl eq_refl)
    as (Hout & Hworld & _).
  split; [exact Hout|exact Hworld].
Defined.

(** C8 at a Stripe webhook with a forged signature. *)
Lemma processWebhook_verification_failed_witness :
  valid (verifyWebhook stripeHandler forgedWebhook) = false /\
  (processWebhook stripeHandler forgedWebhook start).1 =
    Threw (ThrownError
             {| message := "Webhook verification failed: Invalid signature" |}) /\
  eventNames
    (published start
       (processWebhook stripeHandler forgedWebhook start).2)
    = ["webhook:verification:failed"; "webhook:processing:failed"].
Proof.
  assert (Hinvalid : valid (verifyWebhook stripeHandler forgedWebhook) = false)
    by reflexivity.
  split; [exact Hinvalid|].
  destruct (processWebhook_verification_failed stripeHandler forgedWebhook
              start Hinvalid)
    as (Hout & Hnames & _).
  split; [exact Hout|exact Hnames].
Defined.

(** C10 at [new RetryService({ maxAttempts: 0 })]. *)
Lemma executeWithRetry_no_attempts_witness :
  maxAttempts_opt (only_maxAttempts 0) = Some 0%Z /\
  (0 <= 0)%Z /\
  maxAttempts noAttempts = 0%Z /\
  executeWithRetry noAttempts alwaysFails emptyContext start
    = (Threw ThrownUndefined, initialState (0 : World)).
Proof.
  assert (Hsupplied : maxAttempts_opt (only_maxAttempts 0) = Some 0%Z) by reflexivity.
  assert (Hzero : (0 <= 0)%Z) by lia.
  split; [exact Hsupplied|]. split; [exact Hzero|].
  destruct (executeWithRetry_no_attempts (only_maxAttempts 0) 0 alwaysFails
              emptyContext start Hsupplied Hzero)
    as (_ & Hcfg & Hrun & _).
  split; [exact Hcfg|exact Hrun].
Defined.

(** C7 at a service with [maxAttempts = 1] whose queue holds one item with
    an operation that always fails: one drain cycle removes the item and
    publishes one [retry:queue:item:failed]. *)
Lemma processRetryQueue_item_witness :
  (1 <= maxAttempts singleAttempt)%Z /\
  NoDup (itemId <$> pending queuedOnce) /\
  pending queuedOnce = [] ++ queuedItem :: [] /\
  always_fails (operation queuedItem) /\
  maxAttempts (config queuedItem) = 1%Z /\
  (0 <= or_int (retryCount (contexts queuedOnce (context queuedItem))) 0)%Z /\
  (itemId queuedItem ∉ itemId <$> pending (processRetryQueue singleAttempt queuedOnce).2) /\
  count_events "retry:queue:item:failed"
    (published queuedOnce (processRetryQueue singleAttempt queuedOnce).2) = 1.
Proof.
  assert (Hmax : (1 <= maxAttempts singleAttempt)%Z) by (vm_compute; discriminate).
  assert (Hnodup : NoDup (itemId <$> pending queuedOnce))
    by apply (NoDup_singleton 0%nat).
  assert (Hpending : pending queuedOnce = [] ++ queuedItem :: []) by reflexivity.
  assert (Hfail : always_fails (operation queuedItem))
    by (intros w; eexists; reflexivity).
  assert (Hone : maxAttempts (config queuedItem) = 1%Z) by reflexivity.
  assert (Hcount : (0 <= or_int (retryCount (contexts queuedOnce (context queuedItem))) 0)%Z)
    by (vm_compute; discriminate).
  repeat (split; [assumption|]).
  pose proof (processRetryQueue_item singleAttempt queuedOnce [] queuedItem []
              Hmax Hnodup Hpending) as Hitem.
  cbv zeta in Hitem. rewrite !processItems_nil, !pair_snd in Hitem.
  destruct Hitem as (Hfinal & _ & _ & Hparticular).
  destruct (Hparticular Hfail Hone Hcount) as [Hgone Hpublished].
  split; [exact Hgone|].
  rewrite Hfinal, pair_snd.
  exact Hpublished.
Defined.

(** C7 as stated fails in two places.  On a service that permits no
    attempt, the inner [executeWithRetry] fails and the count reaches the
    limit of the item, which is removed, but no [retry:queue:item:failed]
    event is published.  And an item whose operation always fails and
    whose [config.maxAttempts] is 1 stays queued when the count of its
    context started below zero. *)
Lemma processRetryQueue_item_not_for_every_input :
  (pending queuedNoAttempts = [noAttemptsItem] /\
   (executeWithRetry noAttempts (operation noAttemptsItem)
      (contexts queuedNoAttempts (context noAttemptsItem)) queuedNoAttempts).1
   = Threw ThrownUndefined /\
   retryCount (contexts (processRetryQueue noAttempts queuedNoAttempts).2
                 (context noAttemptsItem)) = Some 1%Z /\
   (maxAttempts (config noAttemptsItem) <= 1)%Z /\
   pending (processRetryQueue noAttempts queuedNoAttempts).2 = [] /\
   count_events "retry:queue:item:failed"
     (published queuedNoAttempts (processRetryQueue noAttempts queuedNoAttempts).2)
   = 0) /\
  (pending queuedNegative = [queuedItem] /\
   always_fails (operation queuedItem) /\
   maxAttempts (config queuedItem) = 1%Z /\
   pending (processRetryQueue singleAttempt queuedNegative).2 = [queuedItem] /\
   count_events "retry:queue:item:failed"
     (published queuedNegative (processRetryQueue singleAttempt queuedNegative).2)
   = 0).
Proof.
  split.
  - split; [reflexivity|]. split; [vm_compute; reflexivity|].
    split; [vm_compute; reflexivity|]. split; [vm_compute; discriminate|].
    split; vm_compute; reflexivity.
  - split; [reflexivity|]. split; [intros w; eexists; reflexivity|].
    split; [reflexivity|]. split; vm_compute; reflexivity.
Qed.

(** C9 at a payload that already carries a [_metadata] property. *)
Example emitEvent_overwrites_metadata :
  let data : gmap string JsVal :=
    {[ "_metadata" := JStr "mine"; "amount" := JInt 5 ]} in
  exists ev,
    delivered (emitEvent "payment:captured" data start) = [ev] /\
    eventData ev !! "amount" = Some (JInt 5) /\
    eventData ev !! "_metadata" = Some (metadata "payment:captured" "t0").
Proof. eexists. split; [reflexivity|]. split; by vm_compute. Qed.

(** * Further properties *)

(** ** Retry engine: attempts, counts and delays *)

(** A closed list of names does not hold the name in question. *)
Ltac not_in_names :=
  let Hin := fresh "Hin" in
  intros Hin;
  repeat (apply elem_of_cons in Hin as [Hin|Hin]; [discriminate|]);
  by apply elem_of_nil in Hin.

Section RetryBudget.
Context `{Runtime}.

#[local] Opaque emitEvent set_world delay decorate.

Lemma scheduledData_delay op ctx attempt ms st :
  scheduledData op ctx attempt ms st !! "delay" = Some (JNum ms).
Proof. unfold scheduledData. obj_lookup. Qed.

Lemma scheduledDelays_app l1 l2 :
  scheduledDelays (l1 ++ l2) = scheduledDelays l1 ++ scheduledDelays l2.
Proof. apply omap_app. Qed.

(** A failed pass that is followed by another one, with the delay its
    [retry:scheduled] event carries. *)
Lemma retryLoop_failed_round cfg op ctx attempt lastError st error w :
  (attempt + 1 < maxAttempts cfg)%Z ->
  execute op (world st) = (inl error, w) ->
  exists st1 round,
    retryLoop cfg op ctx attempt lastError st =
      retryLoop cfg op ctx (attempt + 1) (Some error) st1 /\
    delivered st1 = delivered st ++ round /\
    eventNames round = retryRound /\
    scheduledDelays round = [JNum (calculateDelay cfg (attempt + 1))].
Proof.
  intros Hlt Hex. rewrite retryLoop_eq, decide_True by lia.
  unfold iteration, run_execute. rewrite emitEvent_world, Hex.
  assert (Hne : (attempt + 1 =? maxAttempts cfg)%Z = false) by (apply Z.eqb_neq; lia).
  rewrite Hne.
  eexists _, [_; _; _]. split; [reflexivity|].
  rewrite delay_delivered, !emitEvent_delivered, set_world_delivered,
    emitEvent_delivered, <- !app_assoc.
  split; [reflexivity|]. split; [reflexivity|].
  unfold scheduledDelays. cbn [omap list_omap eventName eventData].
  change (String.eqb "retry:attempt" "retry:scheduled") with false.
  change (String.eqb "retry:failed" "retry:scheduled") with false.
  change (String.eqb "retry:scheduled" "retry:scheduled") with true.
  cbn iota. rewrite decorate_lookup_ne by done. by rewrite scheduledData_delay.
Qed.

Lemma scheduledDelays_ending (ending : list Emitted) :
  "retry:scheduled" ∉ eventNames ending -> scheduledDelays ending = [].
Proof.
  induction ending as [|e l IH]; [done|]. intros Hnot.
  cbn in Hnot. apply not_elem_of_cons in Hnot as [Hne Hnot].
  unfold scheduledDelays in *. cbn [omap list_omap].
  assert (Hb : String.eqb (eventName e) "retry:scheduled" = false)
    by (apply String.eqb_neq; congruence).
  rewrite Hb. by apply IH.
Qed.

(** The whole run of the loop from [attempt] on: [k] failed rounds, whose
    delays are the backoffs of the attempts [attempt + 1 .. attempt + k],
    then the attempt that ends the call; never more attempts than
    permitted. *)
Lemma retryLoop_rounds cfg op ctx (n : nat) : forall attempt lastError st,
  Z.to_nat (maxAttempts cfg - attempt) = n ->
  (attempt < maxAttempts cfg)%Z ->
  exists (k : nat) (log : list Emitted),
    delivered (retryLoop cfg op ctx attempt lastError st).2 = delivered st ++ log /\
    (attempt + Z.of_nat k + 1 <= maxAttempts cfg)%Z /\
    scheduledDelays log =
      (fun i => JNum (calculateDelay cfg i)) <$> seqZ (attempt + 1) (Z.of_nat k) /\
    match (retryLoop cfg op ctx attempt lastError st).1 with
    | Returned _ =>
        eventNames log = retryNames k ["retry:attempt"; "retry:success"]
    | Threw _ =>
        eventNames log =
          retryNames k ["retry:attempt"; "retry:failed"; "retry:exhausted"] /\
        (attempt + Z.of_nat k + 1 = maxAttempts cfg)%Z
    end.
Proof.
  induction n as [|n IH]; intros attempt lastError st Hn Hlt; [lia|].
  destruct (execute op (world st)) as [[error|result] w] eqn:Hex.
  - destruct (decide (attempt + 1 = maxAttempts cfg)%Z) as [Hlast|Hmore].
    + destruct (retryLoop_failed_last cfg op ctx attempt lastError st error w Hlast Hex)
        as (st1 & ev1 & ev2 & ev3 & -> & Hd & Hnames & _).
      exists 0%nat, [ev1; ev2; ev3]. cbn [fst snd].
      split; [done|]. split; [lia|].
      split; [apply scheduledDelays_ending; rewrite Hnames; not_in_names|].
      split; [exact Hnames|lia].
    + destruct (retryLoop_failed_round cfg op ctx attempt lastError st error w)
        as (st1 & round & -> & Hd & Hnames & Hdelay); [lia|done|].
      destruct (IH (attempt + 1)%Z (Some error) st1) as (k & log & Hd' & Hk & Hdel & Hr);
        [lia|lia|].
      exists (S k), (round ++ log).
      split; [by rewrite Hd', Hd, <- !app_assoc|]. split; [lia|].
      split.
      { rewrite scheduledDelays_app, Hdelay, Hdel.
        rewrite (seqZ_cons (attempt + 1) (Z.of_nat (S k))) by lia.
        rewrite fmap_cons. cbn [app]. do 3 f_equal; lia. }
      assert (Hcons : forall ending,
        eventNames log = retryNames k ending ->
        eventNames (round ++ log) = retryNames (S k) ending).
      { intros ending Hl. rewrite eventNames_app, Hl, Hnames.
        unfold retryNames. cbn [replicate concat]. by rewrite <- app_assoc. }
      destruct (retryLoop cfg op ctx (attempt + 1) (Some error) st1).1 as [v|t].
      * by apply Hcons.
      * destruct Hr as [Hl Hmax]. split; [by apply Hcons|lia].
  - destruct (retryLoop_succeeded cfg op ctx attempt lastError st result w Hlt Hex)
      as (st1 & ev1 & ev2 & -> & Hd & Hnames & _).
    exists 0%nat, [ev1; ev2]. cbn [fst snd].
    split; [done|]. split; [lia|].
    split; [apply scheduledDelays_ending; rewrite Hnames; not_in_names|].
    exact Hnames.
Qed.

(** X1. With [maxAttempts >= 1], a call of [executeWithRetry] publishes at
    most [maxAttempts] [retry:attempt] events and one [retry:scheduled]
    fewer.  When it returns, every attempt but the last published
    [retry:failed]; when it throws, it made exactly [maxAttempts] attempts
    and every one of them published [retry:failed]. *)
Theorem executeWithRetry_attempt_budget cfg op ctx st :
  (1 <= maxAttempts cfg)%Z ->
  let outcome := executeWithRetry cfg op ctx st in
  let log := published st outcome.2 in
  count_events "retry:attempt" log <= Z.to_nat (maxAttempts cfg) /\
  count_events "retry:attempt" log = S (count_events "retry:scheduled" log) /\
  match outcome.1 with
  | Returned _ =>
      count_events "retry:failed" log = count_events "retry:scheduled" log
  | Threw _ =>
      count_events "retry:attempt" log = Z.to_nat (maxAttempts cfg) /\
      count_events "retry:failed" log = Z.to_nat (maxAttempts cfg)
  end.
Proof.
  intros Hmax outcome log. subst outcome log. unfold executeWithRetry.
  destruct (retryLoop_rounds cfg op ctx _ 0%Z None st eq_refl)
    as (k & log & Hd & Hk & _ & Hr); [lia|].
  rewrite (published_app _ _ _ Hd). unfold count_events.
  destruct (retryLoop cfg op ctx 0 None st).1 as [v|t].
  - rewrite Hr, !count_name_rounds. count_names. lia.
  - destruct Hr as [-> Hlast]. rewrite !count_name_rounds. count_names. lia.
Qed.

(** X2. The [delay] carried by the [i]-th [retry:scheduled] event of a call
    is the backoff [calculateDelay] computes for attempt [i]. *)
Theorem executeWithRetry_scheduled_delays cfg op ctx st :
  (1 <= maxAttempts cfg)%Z ->
  let log := published st (executeWithRetry cfg op ctx st).2 in
  scheduledDelays log =
    (fun i => JNum (calculateDelay cfg i))
      <$> seqZ 1 (Z.of_nat (count_events "retry:scheduled" log)).
Proof.
  intros Hmax log. subst log. unfold executeWithRetry.
  destruct (retryLoop_rounds cfg op ctx _ 0%Z None st eq_refl)
    as (k & log & Hd & _ & Hdelays & Hr); [lia|].
  rewrite (published_app _ _ _ Hd), Hdelays. unfold count_events.
  assert (Hcount : count_name "retry:scheduled" (eventNames log) = k).
  { destruct (retryLoop cfg op ctx 0 None st).1 as [v|t].
    - rewrite Hr, count_name_rounds. count_names. lia.
    - destruct Hr as [-> _]. rewrite count_name_rounds. count_names. lia. }
  by rewrite Hcount.
Qed.

(** X3. An operation whose [execute] always fails is attempted exactly
    [maxAttempts] times, and then the call throws an [Error]: it never
    returns. *)
Theorem executeWithRetry_always_fails cfg op ctx st :
  always_fails op ->
  (1 <= maxAttempts cfg)%Z ->
  let outcome := executeWithRetry cfg op ctx st in
  let log := published st outcome.2 in
  (exists e, outcome.1 = Threw (ThrownError e)) /\
  count_events "retry:attempt" log = Z.to_nat (maxAttempts cfg) /\
  count_events "retry:success" log = 0.
Proof.
  intros Hfail Hmax outcome log. subst outcome log. unfold executeWithRetry.
  destruct (retryLoop_always_fails cfg op ctx _ 0%Z None st Hfail eq_refl)
    as [e He]; [lia|].
  destruct (retryLoop_rounds cfg op ctx _ 0%Z None st eq_refl)
    as (k & log & Hd & _ & _ & Hr); [lia|].
  rewrite (published_app _ _ _ Hd). unfold count_events.
  rewrite He in Hr |- *. destruct Hr as [-> Hlast].
  split; [by exists e|]. rewrite !count_name_rounds. count_names. lia.
Qed.

(** X4. [executeWithRetry] leaves the retry queue and the context objects
    alone, whatever the outcome: an operation whose retries are exhausted is
    not queued. *)
Theorem executeWithRetry_leaves_queue cfg op ctx st :
  let after := (executeWithRetry cfg op ctx st).2 in
  pending after = pending st /\ contexts after = contexts st /\
  nextItem after = nextItem st /\ nextContext after = nextContext st.
Proof.
  destruct (executeWithRetry_same_store cfg op ctx st) as (Hc & Hnc & Hp & Hn).
  done.
Qed.

End RetryBudget.

(** ** Backoff delays and the constructor *)

(** X5. In the arithmetic of the engine, and whatever its [Math.pow]
    computes: with a strategy other than the fixed one, the delay of every
    attempt is at most [maxDelay], or else it is NaN. *)
Theorem calculateDelay64_bounded `{Engine} (cfg : RetryConfig64) (a : Z) :
  strategy64 cfg <> "fixed" ->
  calculateDelay64 cfg a = S754_nan \/
  double_le (calculateDelay64 cfg a) (maxDelay64 cfg) = true.
Proof.
  intros Hfixed. apply String.eqb_neq in Hfixed. unfold calculateDelay64.
  rewrite Hfixed.
  repeat destruct (String.eqb (strategy64 cfg) _); apply Math_min_le_r.
Qed.

(** X7. The constructor keeps every key the caller supplies, falsy or not
    (a zero, an empty string): the defaults written with [||] only ever show
    for the keys that are absent. *)
Theorem newRetryService_supplied_wins (supplied : PartialRetryConfig) :
  let cfg := newRetryService (Some supplied) in
  maxAttempts cfg = default 3%Z (maxAttempts_opt supplied) /\
  initialDelay cfg = default 1000%Q (initialDelay_opt supplied) /\
  maxDelay cfg = default 60000%Q (maxDelay_opt supplied) /\
  backoffFactor cfg = default 2%Q (backoffFactor_opt supplied) /\
  strategy cfg = default "exponential" (strategy_opt supplied).
Proof.
  destruct supplied as [[n|] [i|] [m|] [b|] [s|]]; repeat split; reflexivity.
Qed.

(** ** Retry queue: enqueueing, sharing and drain cycles *)

Section QueueMore.
Context `{Runtime}.

#[local] Opaque emitEvent decorate.

(** X8. [queueForRetry] puts exactly one new item at the end of the queue,
    holding the operation, the config of the service and the context given
    (a new empty context object when none is given), keeps the items
    already queued, publishes exactly [retry:queued] and does not invoke the
    operation. *)
Theorem queueForRetry_appends cfg op (given : option nat) st :
  let after := queueForRetry cfg op given st in
  exists item,
    retryQueue_getPending after = retryQueue_getPending st ++ [item] /\
    operation item = op /\ config item = cfg /\
    context item = default (nextContext st) given /\
    match given with
    | Some _ => contexts after = contexts st
    | None => contexts after (context item) = emptyContext
    end /\
    eventNames (published st after) = ["retry:queued"] /\
    world after = world st.
Proof.
  cbv zeta. unfold queueForRetry, new_context, new_item, retryQueue_getPending.
  destruct given as [ref|]; cbv beta iota zeta; eexists;
    rewrite emitEvent_pending, emitEvent_contexts, emitEvent_world;
    (split; [reflexivity|]); (split; [reflexivity|]); (split; [reflexivity|]);
    (split; [reflexivity|]).
  - split; [reflexivity|]. split; [|reflexivity].
    unfold published. rewrite emitEvent_delivered.
    cbn [retryQueue_add set_pending delivered]. by rewrite drop_app_length.
  - split; [cbn; by rewrite Nat.eqb_refl|]. split; [|reflexivity].
    unfold published. rewrite emitEvent_delivered.
    cbn [retryQueue_add set_pending delivered]. by rewrite drop_app_length.
Qed.

(** An operation that always fails: the inner call throws an [Error] after
    [maxAttempts] attempts. *)
Lemma executeWithRetry_fails_log cfg op ctx st :
  always_fails op ->
  (1 <= maxAttempts cfg)%Z ->
  exists e log,
    (executeWithRetry cfg op ctx st).1 = Threw (ThrownError e) /\
    delivered (executeWithRetry cfg op ctx st).2 = delivered st ++ log /\
    count_events "retry:attempt" log = Z.to_nat (maxAttempts cfg).
Proof.
  intros Hfail Hmax. unfold executeWithRetry.
  destruct (retryLoop_always_fails cfg op ctx _ 0%Z None st Hfail eq_refl)
    as [e He]; [lia|].
  destruct (retryLoop_rounds cfg op ctx _ 0%Z None st eq_refl)
    as (k & log & Hd & _ & _ & Hr); [lia|].
  exists e, log. split; [done|]. split; [done|].
  rewrite He in Hr. destruct Hr as [Hnames Hlast]. unfold count_events.
  rewrite Hnames, count_name_rounds. count_names. lia.
Qed.

(** The body of the drain loop for an item whose operation always fails. *)
Lemma processItem_always_fails cfg item st :
  always_fails (operation item) ->
  (1 <= maxAttempts cfg)%Z ->
  let count := (or_int (retryCount (contexts st (context item))) 0 + 1)%Z in
  let after := (processItem cfg item st).2 in
  exists log,
    delivered after = delivered st ++ log /\
    count_events "retry:attempt" log = Z.to_nat (maxAttempts cfg) /\
    retryCount (contexts after (context item)) = Some count /\
    if decide (maxAttempts (config item) <= count)%Z then
      pending after = filter (fun i => itemId i <> itemId item) (pending st) /\
      count_events "retry:queue:item:failed" log = 1
    else
      pending after = pending st /\
      count_events "retry:queue:item:failed" log = 0.
Proof.
  intros Hfail Hmax count after. subst count after.
  destruct (executeWithRetry_fails_log cfg (operation item)
              (contexts st (context item)) st Hfail Hmax)
    as (e & log & He & Hd & Hattempts).
  destruct (processItem_effect cfg item st Hmax)
    as (log' & extra & _ & Hd' & Hnone & Hextra & Hr).
  cbv zeta in Hd', Hextra, Hr. rewrite He in Hr.
  rewrite Hd in Hd'. apply app_inv_head in Hd'. subst log'.
  destruct Hr as [Hcount Hr].
  exists (log ++ extra). split; [by rewrite Hextra, Hd, <- app_assoc|].
  unfold count_events in *. rewrite !eventNames_app, !count_name_app.
  destruct (decide _) as [Hge|Hlt]; destruct Hr as [Hpending Hnames].
  - rewrite Hnames, Hattempts, Hnone. count_names.
    split; [lia|]. split; [done|]. split; [done|lia].
  - subst extra. rewrite Hattempts, Hnone. count_names.
    split; [lia|]. split; [done|]. split; [done|lia].
Qed.

(** X9. Two queued items that share one context object and whose operations
    both fail: one drain cycle adds two to the one [retryCount]. *)
Theorem processRetryQueue_shared_context cfg st item1 item2 :
  (1 <= maxAttempts cfg)%Z ->
  pending st = [item1; item2] ->
  context item1 = context item2 ->
  always_fails (operation item1) ->
  always_fails (operation item2) ->
  (0 <= or_int (retryCount (contexts st (context item1))) 0)%Z ->
  retryCount (contexts (processRetryQueue cfg st).2 (context item1)) =
    Some (or_int (retryCount (contexts st (context item1))) 0 + 2)%Z.
Proof.
  intros Hmax Hpending Hshared Hfail1 Hfail2 Hcount.
  unfold processRetryQueue, retryQueue_getPending. rewrite Hpending.
  rewrite !processItems_cons, processItems_nil, pair_snd by done.
  destruct (processItem_always_fails cfg item1 st Hfail1 Hmax)
    as (log1 & _ & _ & Hc1 & _).
  destruct (processItem_always_fails cfg item2 (processItem cfg item1 st).2 Hfail2 Hmax)
    as (log2 & _ & _ & Hc2 & _).
  rewrite <- Hshared in Hc2. rewrite Hc2, Hc1. f_equal.
  unfold or_int at 1.
  destruct (_ =? 0)%Z eqn:Hz; [apply Z.eqb_eq in Hz; lia|lia].
Qed.

(** X10. On a service whose config permits no attempt ([maxAttempts <= 0]),
    draining an item whose count reaches its own limit removes the item and
    then fails with a [TypeError] while building the failure event: nothing
    is published, no operation is invoked, and the items behind it are not
    visited. *)
Theorem processRetryQueue_no_attempts cfg st item rest :
  (maxAttempts cfg <= 0)%Z ->
  pending st = item :: rest ->
  let count := (or_int (retryCount (contexts st (context item))) 0 + 1)%Z in
  (maxAttempts (config item) <= count)%Z ->
  let final := processRetryQueue cfg st in
  (exists typeError, final.1 = Threw (ThrownError typeError)) /\
  pending final.2 = filter (fun i => itemId i <> itemId item) rest /\
  retryCount (contexts final.2 (context item)) = Some count /\
  published st final.2 = [] /\
  world final.2 = world st.
Proof.
  intros Hnone Hpending count Hreached final. subst final.
  unfold processRetryQueue, retryQueue_getPending. rewrite Hpending.
  cbn [processItems]. unfold processItem, executeWithRetry.
  rewrite retryLoop_done by lia. cbn [throw_lastError]. fold count.
  assert (Hb : (count >=? maxAttempts (config item))%Z = true)
    by (rewrite Z.geb_leb; by apply Z.leb_le).
  rewrite Hb. cbn [thrown_message fst snd].
  split; [by eexists|].
  split; [rewrite retryQueue_remove_pending; cbn [set_context pending];
          rewrite Hpending, filter_cons_False by (intros Hne; by apply Hne); done|].
  split; [by rewrite retryQueue_remove_contexts, set_context_lookup|].
  split; [apply published_app; by rewrite app_nil_r|done].
Qed.

(** What one drain cycle does to a queue that holds a single item whose
    operation always fails. *)
Lemma processRetryQueue_single cfg st item :
  always_fails (operation item) ->
  (1 <= maxAttempts cfg)%Z ->
  pending st = [item] ->
  let count := (or_int (retryCount (contexts st (context item))) 0 + 1)%Z in
  let after := (processRetryQueue cfg st).2 in
  exists log,
    delivered after = delivered st ++ log /\
    count_events "retry:attempt" log = Z.to_nat (maxAttempts cfg) /\
    retryCount (contexts after (context item)) = Some count /\
    if decide (maxAttempts (config item) <= count)%Z then
      pending after = [] /\ count_events "retry:queue:item:failed" log = 1
    else
      pending after = [item] /\ count_events "retry:queue:item:failed" log = 0.
Proof.
  intros Hfail Hmax Hpending count after. subst count after.
  unfold processRetryQueue, retryQueue_getPending. rewrite Hpending.
  rewrite processItems_cons, processItems_nil, pair_snd by done.
  destruct (processItem_always_fails cfg item st Hfail Hmax)
    as (log & Hd & Hattempts & Hcount & Hr).
  exists log. split; [done|]. split; [done|]. split; [done|].
  rewrite Hpending in Hr.
  rewrite filter_cons_False, filter_nil in Hr by (intros Hne; by apply Hne).
  exact Hr.
Qed.

Lemma drainCycles_until_removed cfg item (n : nat) : forall st,
  always_fails (operation item) ->
  (1 <= maxAttempts cfg)%Z ->
  pending st = [item] ->
  (0 <= or_int (retryCount (contexts st (context item))) 0)%Z ->
  Z.to_nat (maxAttempts (config item)
            - or_int (retryCount (contexts st (context item))) 0) = n ->
  (or_int (retryCount (contexts st (context item))) 0 < maxAttempts (config item))%Z ->
  exists log,
    delivered (drainCycles n cfg st) = delivered st ++ log /\
    pending (drainCycles n cfg st) = [] /\
    count_events "retry:attempt" log = n * Z.to_nat (maxAttempts cfg) /\
    count_events "retry:queue:item:failed" log = 1 /\
    forall j, j < n -> pending (drainCycles j cfg st) = [item].
Proof.
  induction n as [|n IH]; intros st Hfail Hmax Hpending Hcount Hn Hlt; [lia|].
  destruct (processRetryQueue_single cfg st item Hfail Hmax Hpending)
    as (log & Hd & Hattempts & Hnew & Hr).
  cbn [drainCycles].
  destruct (decide _) as [Hge|Hless]; destruct Hr as [Hafter Hfailed].
  - assert (n = 0) as -> by lia. cbn [drainCycles].
    exists log. split; [done|]. split; [done|]. split; [lia|]. split; [done|].
    intros j Hj. assert (j = 0) as -> by lia. done.
  - assert (Hor : or_int (retryCount (contexts (processRetryQueue cfg st).2 (context item))) 0
                  = (or_int (retryCount (contexts st (context item))) 0 + 1)%Z).
    { rewrite Hnew. unfold or_int at 1.
      destruct (_ =? 0)%Z eqn:Hz; [apply Z.eqb_eq in Hz; lia|done]. }
    destruct (IH (processRetryQueue cfg st).2 Hfail Hmax Hafter)
      as (log' & Hd' & Hempty & Hattempts' & Hfailed' & Hbefore);
      [rewrite Hor; lia|rewrite Hor; lia|rewrite Hor; lia|].
    exists (log ++ log'). split; [by rewrite Hd', Hd, <- app_assoc|].
    split; [done|]. unfold count_events in *.
    rewrite !eventNames_app, !count_name_app, Hattempts, Hattempts', Hfailed, Hfailed'.
    split; [lia|]. split; [done|].
    intros [|j] Hj; [done|]. cbn [drainCycles]. apply Hbefore. lia.
Qed.

(** X11. The two retry bounds multiply.  A queue holding one item whose
    operation always fails, on a service permitting [m >= 1] attempts, with
    [r] drain cycles left before the item's count reaches its limit: the
    item stays queued through the first [r - 1] cycles and is removed by the
    [r]-th, after [r * m] attempts in all and exactly one
    [retry:queue:item:failed]. *)
Theorem drainCycles_compound cfg st item :
  always_fails (operation item) ->
  (1 <= maxAttempts cfg)%Z ->
  pending st = [item] ->
  let count := or_int (retryCount (contexts st (context item))) 0 in
  (0 <= count < maxAttempts (config item))%Z ->
  let cycles := Z.to_nat (maxAttempts (config item) - count) in
  let final := drainCycles cycles cfg st in
  pending final = [] /\
  count_events "retry:attempt" (published st final)
    = cycles * Z.to_nat (maxAttempts cfg) /\
  count_events "retry:queue:item:failed" (published st final) = 1 /\
  forall j, j < cycles -> pending (drainCycles j cfg st) = [item].
Proof.
  intros Hfail Hmax Hpending count [Hlow Hhigh] cycles final.
  subst count cycles final.
  destruct (drainCycles_until_removed cfg item _ st Hfail Hmax Hpending Hlow eq_refl Hhigh)
    as (log & Hd & Hempty & Hattempts & Hfailed & Hbefore).
  by rewrite (published_app _ _ _ Hd).
Qed.

(** Whatever happens in the body of the loop, the queue afterwards is the
    queue before, or the queue before without the item. *)
Lemma processItem_pending_any cfg item st :
  pending (processItem cfg item st).2 = pending st \/
  pending (processItem cfg item st).2 =
    filter (fun i => itemId i <> itemId item) (pending st).
Proof.
  unfold processItem.
  destruct (executeWithRetry_same_store cfg (operation item)
              (contexts st (context item)) st) as (_ & _ & Hp & _).
  destruct (executeWithRetry cfg (operation item) (contexts st (context item)) st)
    as [[v|t] st1]; cbn [fst snd] in *.
  - right. by rewrite retryQueue_remove_pending, Hp.
  - destruct (_ >=? _)%Z; [|by left].
    right. destruct (thrown_message t); cbn [snd];
      rewrite ?emitEvent_pending, retryQueue_remove_pending; cbn [set_context pending];
      by rewrite Hp.
Qed.

(** X12. A drain cycle only ever removes: whatever the config, the
    operations and the outcome of the call, the queue afterwards is a
    sublist of the queue before, so nothing is added, duplicated or
    reordered. *)
Theorem processRetryQueue_only_removes cfg st :
  pending (processRetryQueue cfg st).2 `sublist_of` pending st.
Proof.
  unfold processRetryQueue.
  assert (Hgen : forall items st0,
    pending (processItems cfg items st0).2 `sublist_of` pending st0).
  { induction items as [|item items IH]; intros st0; [done|].
    cbn [processItems].
    pose proof (processItem_pending_any cfg item st0) as Hone.
    destruct (processItem cfg item st0) as [[[]|t] st1]; cbn [fst snd] in *.
    - etransitivity; [apply IH|].
      destruct Hone as [-> | ->]; [done|apply sublist_filter].
    - destruct Hone as [-> | ->]; [done|apply sublist_filter]. }
  apply Hgen.
Qed.

End QueueMore.

(** ** Webhook pipeline: the verified path, the providers and the names *)

Lemma occurs_app c s1 s2 : occurs c (s1 +:+ s2) = occurs c s1 || occurs c s2.
Proof.
  induction s1 as [|c1 s1 IH]; [done|].
  change (String c1 s1 +:+ s2) with (String c1 (s1 +:+ s2)).
  cbn [occurs]. by rewrite IH, orb_assoc.
Qed.

(** A fallback name never is one of the names without a second colon. *)
Lemma fallback_name_neq provider eventType (name : string) :
  occurs colon name = false ->
  "webhook:" +:+ provider +:+ ":" +:+ eventType <> "webhook:" +:+ name.
Proof.
  intros Hnone Heq. apply (inj (String.append "webhook:")) in Heq.
  assert (Hocc : occurs colon (provider +:+ ":" +:+ eventType) = true).
  { rewrite occurs_app. apply orb_true_iff. by right. }
  rewrite Heq in Hocc. congruence.
Qed.

(** The own properties of [maps] are the two tables. *)
Lemma maps_lookup provider table :
  maps !! provider = Some table ->
  (provider = "stripe" /\ table = stripeEvents) \/
  (provider = "paypal" /\ table = paypalEvents).
Proof.
  intros Hlook. apply elem_of_list_to_map_2 in Hlook.
  apply elem_of_cons in Hlook as [[= -> ->]|Hlook]; [by left|].
  apply elem_of_cons in Hlook as [[= -> ->]|Hlook]; [by right|].
  by apply elem_of_nil in Hlook.
Qed.

(** No name in the two provider tables is empty or is [webhook:event], and
    no key of them names a property inherited from [Object.prototype]. *)
Lemma maps_names provider table eventType name :
  maps !! provider = Some table ->
  table !! eventType = Some name ->
  name <> "" /\ name <> "webhook:event" /\ eventType ∉ objectPrototypeKeys.
Proof.
  assert (Hstripe : map_Forall (fun k v =>
            v <> "" /\ v <> "webhook:event" /\ k ∉ objectPrototypeKeys) stripeEvents)
    by (refine (bool_decide_unpack _ _); vm_compute; exact I).
  assert (Hpaypal : map_Forall (fun k v =>
            v <> "" /\ v <> "webhook:event" /\ k ∉ objectPrototypeKeys) paypalEvents)
    by (refine (bool_decide_unpack _ _); vm_compute; exact I).
  intros Hmaps Hlook.
  destruct (maps_lookup _ _ Hmaps) as [[_ ->]|[_ ->]].
  - exact (Hstripe _ _ Hlook).
  - exact (Hpaypal _ _ Hlook).
Qed.

Section WebhookMore.
Context `{Runtime} `{Validation} `{!Realm}.

#[local] Opaque emitEvent decorate.

(** An entry of the event map of a provider is an entry of one of the two
    tables. *)
Lemma getEventMap_entry provider table eventType name :
  getEventMap provider = inl table ->
  table !! eventType = Some name ->
  maps !! provider = Some table.
Proof.
  intros Hmap Hlook. apply getEventMap_table in Hmap. subst table.
  destruct (maps !! provider) as [table|]; [done|].
  cbn [default] in Hlook. by rewrite lookup_empty in Hlook.
Qed.

Lemma internalEvent_mapped provider eventType table name :
  getEventMap provider = inl table ->
  table !! eventType = Some name ->
  internalEvent provider (JStr eventType) = inr (inl name).
Proof.
  intros Hmap Hlook.
  destruct (maps_names _ _ _ _ (getEventMap_entry _ _ _ _ Hmap Hlook) Hlook)
    as (Hne & _).
  unfold internalEvent. cbn [toString]. rewrite Hmap. cbn [eventMapGet].
  rewrite Hlook. apply String.eqb_neq in Hne. by rewrite Hne.
Qed.

(** The name an event type is routed under, when the lookup stays within
    the objects of the handler: the mapped one, or the fallback one; it
    never is [webhook:event]. *)
Lemma internalEvent_plain provider eventType table :
  getEventMap provider = inl table ->
  eventType ∉ objectPrototypeKeys ->
  exists name, internalEvent provider (JStr eventType) = inr (inl name) /\
    name <> "webhook:event".
Proof.
  intros Hmap Hplain.
  destruct (table !! eventType) as [name|] eqn:Hlook.
  - exists name. split; [by eapply internalEvent_mapped|].
    by destruct (maps_names _ _ _ _ (getEventMap_entry _ _ _ _ Hmap Hlook) Hlook)
      as (_ & ? & _).
  - eexists. split; [by eapply internalEvent_unmapped|].
    by apply (fallback_name_neq provider eventType "event").
Qed.

Lemma count_name_other event (name : string) :
  name <> event -> count_name event [name] = 0.
Proof.
  intros Hne. unfold count_name. by rewrite filter_cons_False, filter_nil.
Qed.

Lemma routeWebhookEvent_names provider eventType name payload st :
  internalEvent provider eventType = inr (inl name) ->
  (routeWebhookEvent provider eventType payload st).1 = Returned tt /\
  eventNames (published st (routeWebhookEvent provider eventType payload st).2)
  = [name] ++ ["webhook:event"].
Proof.
  intros Hname.
  destruct (routeWebhookEvent_delivered provider eventType name payload st Hname)
    as (after & ev & generic & -> & Hd & _ & Hev & _ & _ & _ & Hg).
  split; [done|]. cbn [snd]. rewrite (published_app _ _ _ Hd).
  cbn. by rewrite Hev, Hg.
Qed.

(** X13. A routed webhook whose provider's event map is a table of the
    handler (or the empty object) and whose event type names no inherited
    property publishes exactly two events, the second of which is the one
    [webhook:event] of the call: the name the first is published under,
    mapped or synthesized, never is [webhook:event]. *)
Theorem routeWebhookEvent_one_generic provider eventType table payload st :
  getEventMap provider = inl table ->
  eventType ∉ objectPrototypeKeys ->
  let outcome := routeWebhookEvent provider (JStr eventType) payload st in
  let log := published st outcome.2 in
  outcome.1 = Returned tt /\
  count_events "webhook:event" log = 1 /\
  exists name, internalEvent provider (JStr eventType) = inr (inl name) /\
    eventNames log = [name; "webhook:event"].
Proof.
  intros Hmap Hplain. cbv zeta.
  destruct (internalEvent_plain _ _ _ Hmap Hplain) as (name & Hname & Hne).
  destruct (routeWebhookEvent_names provider (JStr eventType) name payload st Hname)
    as [Hout Hnames].
  split; [exact Hout|]. unfold count_events. rewrite Hnames.
  split; [|by exists name].
  by rewrite count_name_app, count_name_other.
Qed.

(** X14. An event type that has an entry in the provider's table is routed
    under the name in the table, not under a synthesized one: no entry of
    the tables is empty, so the [||] never falls through for a mapped
    type.  The call returns. *)
Theorem routeWebhookEvent_mapped provider eventType table name payload st :
  getEventMap provider = inl table ->
  table !! eventType = Some name ->
  let outcome := routeWebhookEvent provider (JStr eventType) payload st in
  internalEvent provider (JStr eventType) = inr (inl name) /\
  outcome.1 = Returned tt /\
  eventNames (published st outcome.2) = [name; "webhook:event"].
Proof.
  intros Hmap Hlook. cbv zeta.
  pose proof (internalEvent_mapped _ _ _ _ Hmap Hlook) as Hname.
  split; [exact Hname|].
  exact (routeWebhookEvent_names provider (JStr eventType) name payload st Hname).
Qed.

(** X15. A provider other than Stripe and PayPal that names no inherited
    property has no table: every event type of it that names no inherited
    property either is routed under [webhook:<provider>:<eventType>]. *)
Theorem internalEvent_unknown_provider provider eventType :
  provider <> "stripe" -> provider <> "paypal" ->
  provider ∉ objectPrototypeKeys ->
  eventType ∉ objectPrototypeKeys ->
  getEventMap provider = inl ∅ /\
  internalEvent provider (JStr eventType)
  = inr (inl ("webhook:" +:+ provider +:+ ":" +:+ eventType)).
Proof.
  intros Hs Hp Hprovider Hplain.
  assert (Hmap : getEventMap provider = inl ∅).
  { rewrite getEventMap_plain by done.
    destruct (maps !! provider) as [table|] eqn:Hlook; [|done].
    by destruct (maps_lookup _ _ Hlook) as [[? _]|[? _]]. }
  split; [exact Hmap|].
  by apply (internalEvent_unmapped provider eventType ∅).
Qed.


(** The verified path of [processWebhook], for an event type that is
    routed under a name that is a string. *)
Lemma processWebhook_verified_log hcfg params eventType name st :
  valid (verifyWebhook hcfg params) = true ->
  mapProviderEvent (provider params) (payload params) = eventType ->
  internalEvent (provider params) eventType = inr (inl name) ->
  (processWebhook hcfg params st).1 = Returned tt /\
  world (processWebhook hcfg params st).2 = world st /\
  exists received routed generic processed,
    delivered (processWebhook hcfg params st).2 =
      delivered st ++ [received; routed; generic; processed] /\
    eventNames [received; routed; generic; processed] =
      ["webhook:received"; name; "webhook:event"; "webhook:processed"] /\
    eventData received !! "eventType" = Some eventType /\
    eventData routed !! "originalEvent" = Some eventType /\
    eventData routed !! "payload" = Some (JObj (payload params)).
Proof.
  intros Hvalid Htype Hname. unfold processWebhook, processWebhook_try.
  cbv zeta. rewrite Hvalid, Htype. cbn [negb].
  match goal with |- context [routeWebhookEvent ?p ?t ?pl ?s] =>
    destruct (routeWebhookEvent_delivered p t name pl s Hname)
      as (after & routed & generic & -> & Hd & Hw & Hev & _ & Horig & Hpayload & Hg)
  end.
  cbn [fst snd]. split; [done|].
  split; [by rewrite emitEvent_world, Hw, emitEvent_world|].
  eexists _, routed, generic, _.
  rewrite emitEvent_delivered, Hd, emitEvent_delivered, <- !app_assoc.
  split; [reflexivity|]. split; [cbn; by rewrite Hev, Hg|].
  split; [|done]. cbn [eventData]. rewrite decorate_lookup_ne by done.
  unfold receivedData. obj_lookup.
Qed.

(** X17. A webhook whose verification is valid, whose event type is a
    string that names no inherited property and whose provider's event map
    is a table of the handler (or the empty object) goes through: the call
    returns, having published exactly [webhook:received], the routed event,
    [webhook:event] and [webhook:processed], in this order; the received and
    the routed event carry the event type read from the payload. *)
Theorem processWebhook_verified hcfg params eventType table st :
  valid (verifyWebhook hcfg params) = true ->
  mapProviderEvent (provider params) (payload params) = JStr eventType ->
  getEventMap (provider params) = inl table ->
  eventType ∉ objectPrototypeKeys ->
  let outcome := processWebhook hcfg params st in
  let log := published st outcome.2 in
  outcome.1 = Returned tt /\
  count_events "webhook:event" log = 1 /\
  exists name received routed,
    internalEvent (provider params) (JStr eventType) = inr (inl name) /\
    eventNames log =
      ["webhook:received"; name; "webhook:event"; "webhook:processed"] /\
    log !! 0 = Some received /\ log !! 1 = Some routed /\
    eventData received !! "eventType" = Some (JStr eventType) /\
    eventData routed !! "originalEvent" = Some (JStr eventType) /\
    eventData routed !! "payload" = Some (JObj (payload params)).
Proof.
  intros Hvalid Htype Hmap Hplain outcome log. subst outcome log.
  destruct (internalEvent_plain _ _ _ Hmap Hplain) as (name & Hname & Hne).
  destruct (processWebhook_verified_log hcfg params _ name st Hvalid Htype Hname)
    as (Hout & _ & received & routed & generic & processed & Hd & Hnames & Hdata).
  rewrite (published_app _ _ _ Hd). split; [done|].
  split; [|by exists name, received, routed].
  unfold count_events. rewrite Hnames.
  change ["webhook:received"; name; "webhook:event"; "webhook:processed"]
    with (["webhook:received"] ++ [name]
          ++ ["webhook:event"; "webhook:processed"]).
  rewrite !count_name_app.
  by rewrite (count_name_other _ name).
Qed.

(** X18. Only Stripe webhooks are checked.  For any other provider the
    validator is not consulted: whatever the signature, the secret and the
    validator, the verification is valid, and [processWebhook] returns when
    the event type is a string that names no inherited property and the
    provider's event map is a table of the handler (or the empty
    object). *)
Theorem processWebhook_unverified_provider hcfg params eventType table st :
  provider params <> "stripe" ->
  mapProviderEvent (provider params) (payload params) = JStr eventType ->
  getEventMap (provider params) = inl table ->
  eventType ∉ objectPrototypeKeys ->
  verifyWebhook hcfg params =
    {| valid := true; verifiedProvider := Some (provider params); error := None |} /\
  (processWebhook hcfg params st).1 = Returned tt.
Proof.
  intros Hother Htype Hmap Hplain.
  assert (Hverify : verifyWebhook hcfg params =
    {| valid := true; verifiedProvider := Some (provider params); error := None |}).
  { unfold verifyWebhook. apply String.eqb_neq in Hother. rewrite Hother.
    by destruct (String.eqb (provider params) "paypal"). }
  split; [exact Hverify|].
  destruct (internalEvent_plain _ _ _ Hmap Hplain) as (name & Hname & _).
  eapply processWebhook_verified_log; [by rewrite Hverify|exact Htype|exact Hname].
Qed.

(** X6. An event type that names a property inherited from
    [Object.prototype] (["constructor"], ["__proto__"], ...) is not routed
    under the fallback name, although no table has an entry for it: the
    lookup finds the inherited value, and the bus is handed that value in
    place of a name.  When the bus throws on it and delivers nothing, a
    verified webhook ends in the [catch] block: the call throws what the bus
    threw, having published [webhook:received] and
    [webhook:processing:failed] only. *)
Theorem processWebhook_inherited_event_type hcfg params eventType table thrown st :
  valid (verifyWebhook hcfg params) = true ->
  mapProviderEvent (provider params) (payload params) = JStr eventType ->
  getEventMap (provider params) = inl table ->
  eventType ∈ objectPrototypeKeys ->
  (forall data st', emitNative (inherited eventType) data st'
                    = (Threw (ThrownError thrown), st')) ->
  let outcome := processWebhook hcfg params st in
  let log := published st outcome.2 in
  table !! eventType = None /\
  internalEvent (provider params) (JStr eventType)
    = inr (inr (inherited eventType)) /\
  outcome.1 = Threw (ThrownError thrown) /\
  eventNames log = ["webhook:received"; "webhook:processing:failed"] /\
  exists failed, log !! 1 = Some failed /\
    eventData failed !! "error" = Some (JStr (message thrown)).
Proof.
  intros Hvalid Htype Hmap Hin Hbus outcome log. subst outcome log.
  assert (Hnone : table !! eventType = None).
  { destruct (table !! eventType) as [name|] eqn:Hlook; [|done].
    by destruct (maps_names _ _ _ _ (getEventMap_entry _ _ _ _ Hmap Hlook) Hlook)
      as (_ & _ & ?). }
  assert (Hname : internalEvent (provider params) (JStr eventType)
                  = inr (inr (inherited eventType))).
  { unfold internalEvent. cbn [toString]. rewrite Hmap. cbn [eventMapGet].
    by rewrite Hnone, bool_decide_eq_true_2. }
  split; [exact Hnone|]. split; [exact Hname|].
  unfold processWebhook, processWebhook_try. cbv zeta.
  rewrite Hvalid, Htype. cbn [negb].
  unfold routeWebhookEvent. rewrite Hname. cbn [emitInternal].
  rewrite Hbus. cbn [thrown_message fst snd].
  erewrite published_app;
    [|by rewrite !emitEvent_delivered, <- app_assoc].
  split; [done|]. split; [done|].
  eexists. split; [reflexivity|]. cbn [eventData].
  rewrite decorate_lookup_ne by done. apply processingFailedData_error.
Qed.

(** X19. Stripe: an exception thrown by the validator does not leave
    [processWebhook] as it is.  It becomes an invalid verification whose
    error is the message of the exception, and the call throws a new error
    that prefixes this message, after publishing
    [webhook:verification:failed] and [webhook:processing:failed]. *)
Theorem processWebhook_validator_throws hcfg params st thrown :
  provider params = "stripe" ->
  validateWebhookSignature (payload params) (or_str (signature params) "")
    (stripeWebhookSecret hcfg) = inl thrown ->
  let outcome := processWebhook hcfg params st in
  let log := published st outcome.2 in
  outcome.1 = Threw (ThrownError
    {| message := "Webhook verification failed: " +:+ message thrown |}) /\
  eventNames log = ["webhook:verification:failed"; "webhook:processing:failed"] /\
  exists failed, log !! 0 = Some failed /\
    eventData failed !! "error" = Some (JStr (message thrown)).
Proof.
  intros Hstripe Hthrown outcome log. subst outcome log.
  assert (Hverify : verifyWebhook hcfg params =
    {| valid := false; verifiedProvider := Some (provider params);
       error := Some (message thrown) |}).
  { unfold verifyWebhook. rewrite Hstripe.
    change (String.eqb "stripe" "stripe") with true. cbv iota.
    by rewrite Hthrown. }
  unfold processWebhook, processWebhook_try. cbv zeta. rewrite Hverify.
  cbn [valid error negb thrown_message fst snd message template].
  erewrite published_app;
    [|by rewrite !emitEvent_delivered, <- app_assoc].
  split; [done|]. split; [done|].
  eexists. split; [reflexivity|]. cbn [eventData].
  rewrite decorate_lookup_ne by done. unfold verificationFailedData. obj_lookup.
Qed.

End WebhookMore.

(** ** Payments *)

Section PaymentFacts.
Context `{Runtime} `{!PaymentCollaborators}.

#[local] Opaque emitEvent decorate set_world.

Lemma run_provider_eq {A : Type} (method : World -> (Error + A) * World) st r w :
  method (world st) = (r, w) -> run_provider method st = (r, set_world w st).
Proof. intros Hm. unfold run_provider. by rewrite Hm. Qed.

Lemma providers_unsupported provider :
  provider <> "stripe" -> provider <> "paypal" -> providers !! provider = None.
Proof.
  intros Hs Hp. unfold providers.
  rewrite !lookup_insert_ne by done. apply lookup_empty.
Qed.

Lemma paymentFailedData_fields error params st :
  paymentFailedData error params st !! "error" = Some (JStr (message error)) /\
  paymentFailedData error params st !! "params" = Some (JObj (paramsObject params)).
Proof. unfold paymentFailedData. split; obj_lookup. Qed.

(** X20. Every call of [createPaymentIntent] publishes exactly one event,
    and the event tells the outcome: [payment:intent:created], carrying the
    identifier of the intent returned, when the call returns;
    [payment:intent:failed], carrying the message of the error thrown and
    the params, when it throws. *)
Theorem createPaymentIntent_one_event params st :
  let outcome := createPaymentIntent params st in
  let log := published st outcome.2 in
  exists ev, log = [ev] /\
  match outcome.1 with
  | Returned paymentIntent =>
      eventName ev = "payment:intent:created" /\
      eventData ev !! "paymentIntentId" = Some (prop paymentIntent "id") /\
      eventData ev !! "customerId" = Some (prop (paramsObject params) "customerId")
  | Threw thrown =>
      eventName ev = "payment:intent:failed" /\
      exists e, thrown = ThrownError e /\
        eventData ev !! "error" = Some (JStr (message e)) /\
        eventData ev !! "params" = Some (JObj (paramsObject params))
  end.
Proof.
  cbv zeta. unfold createPaymentIntent, createPaymentIntent_try.
  assert (Hfail : forall e st0, delivered st0 = delivered st ->
    exists ev,
      published st (emitEvent "payment:intent:failed"
                      (paymentFailedData e params st0) st0) = [ev] /\
      eventName ev = "payment:intent:failed" /\
      exists e', ThrownError e = ThrownError e' /\
        eventData ev !! "error" = Some (JStr (message e')) /\
        eventData ev !! "params" = Some (JObj (paramsObject params))).
  { intros e st0 Hd.
    destruct (paymentFailedData_fields e params st0) as [He Hp].
    eexists. split; [apply published_app; by rewrite emitEvent_delivered, Hd|].
    split; [reflexivity|]. exists e. cbn [eventData].
    by rewrite !decorate_lookup_ne. }
  destruct (validatePaymentParams params) as [thrown|]; [by apply Hfail|].
  destruct (providers !! paymentProvider params) as [provider|]; [|by apply Hfail].
  destruct (providerCreatePaymentIntent provider params (world st))
    as [[rejected|paymentIntent] w] eqn:Hcall;
    rewrite (run_provider_eq _ _ _ _ Hcall); cbn [fst snd].
  - by apply Hfail.
  - eexists. split; [apply published_app; by rewrite emitEvent_delivered|].
    split; [reflexivity|]. cbn [eventData]. rewrite !decorate_lookup_ne by done.
    unfold intentCreatedData. split; obj_lookup.
Qed.

(** X21. When [validatePaymentParams] throws, [createPaymentIntent] throws
    that very error after publishing [payment:intent:failed], and no
    provider is invoked, whether the provider named is supported or not. *)
Theorem createPaymentIntent_invalid_params params st thrown :
  validatePaymentParams params = Some thrown ->
  let outcome := createPaymentIntent params st in
  outcome.1 = Threw (ThrownError thrown) /\
  world outcome.2 = world st /\
  eventNames (published st outcome.2) = ["payment:intent:failed"].
Proof.
  intros Hinvalid. cbv zeta. unfold createPaymentIntent, createPaymentIntent_try.
  rewrite Hinvalid. cbn [fst snd]. split; [done|].
  split; [apply emitEvent_world|].
  erewrite published_app; [|apply emitEvent_delivered]. done.
Qed.

(** X22. A provider other than ["stripe"] and ["paypal"] is not supported.
    [capturePayment] and [refundPayment] then throw the unsupported-provider
    error after publishing their failure event; [getPaymentMethods] throws
    the same error and publishes nothing.  No provider is invoked. *)
Theorem payments_unsupported_provider params customerId st :
  paymentProvider params <> "stripe" ->
  paymentProvider params <> "paypal" ->
  let unsupported := ThrownError (unsupportedProvider (paymentProvider params)) in
  ((capturePayment params st).1 = Threw unsupported /\
   world (capturePayment params st).2 = world st /\
   eventNames (published st (capturePayment params st).2)
     = ["payment:capture:failed"]) /\
  ((refundPayment params st).1 = Threw unsupported /\
   world (refundPayment params st).2 = world st /\
   eventNames (published st (refundPayment params st).2)
     = ["payment:refund:failed"]) /\
  getPaymentMethods customerId (paymentProvider params) st = (Threw unsupported, st).
Proof.
  intros Hs Hp. cbv zeta.
  unfold capturePayment, capturePayment_try, refundPayment, refundPayment_try,
    getPaymentMethods.
  rewrite !providers_unsupported by done. cbn [fst snd].
  rewrite !emitEvent_world.
  split; [|split; [|done]].
  - split; [done|]. split; [done|]. erewrite published_app; [|apply emitEvent_delivered].
    done.
  - split; [done|]. split; [done|]. erewrite published_app; [|apply emitEvent_delivered].
    done.
Qed.

(** X23. [capturePayment] with a supported provider hands the outcome of
    the provider on unchanged and publishes exactly one event for it: a
    result is returned after [payment:captured], which carries its
    identifier, amount and status; a rejection is thrown again after
    [payment:capture:failed], which carries its message. *)
Theorem capturePayment_outcome params st provider r w :
  providers !! paymentProvider params = Some provider ->
  providerCapturePayment provider params (world st) = (r, w) ->
  let outcome := capturePayment params st in
  let log := published st outcome.2 in
  world outcome.2 = w /\
  exists ev, log = [ev] /\
  match r with
  | inr result =>
      outcome.1 = Returned result /\
      eventName ev = "payment:captured" /\
      eventData ev !! "paymentId" = Some (prop result "id") /\
      eventData ev !! "amount" = Some (prop result "amount") /\
      eventData ev !! "status" = Some (prop result "status")
  | inl rejected =>
      outcome.1 = Threw (ThrownError rejected) /\
      eventName ev = "payment:capture:failed" /\
      eventData ev !! "error" = Some (JStr (message rejected))
  end.
Proof.
  intros Hprovider Hcall. cbv zeta. unfold capturePayment, capturePayment_try.
  rewrite Hprovider, (run_provider_eq _ _ _ _ Hcall).
  destruct r as [rejected|result]; cbn [fst snd];
    rewrite emitEvent_world, set_world_world; (split; [done|]);
    eexists; (split; [apply published_app; by rewrite emitEvent_delivered|]);
    (split; [done|]); (split; [reflexivity|]); cbn [eventData];
    rewrite !decorate_lookup_ne by done.
  - unfold paymentFailedData. obj_lookup.
  - unfold capturedData. split; [obj_lookup|]. split; obj_lookup.
Qed.

(** X24. [refundPayment] with a supported provider: a result is returned
    after exactly one [payment:refunded], whose [refundId] is the identifier
    of the result and whose [paymentId] and [reason] are those of the
    params; a rejection is thrown again after exactly one
    [payment:refund:failed]. *)
Theorem refundPayment_outcome params st provider r w :
  providers !! paymentProvider params = Some provider ->
  providerRefundPayment provider params (world st) = (r, w) ->
  let outcome := refundPayment params st in
  let log := published st outcome.2 in
  world outcome.2 = w /\
  exists ev, log = [ev] /\
  match r with
  | inr result =>
      outcome.1 = Returned result /\
      eventName ev = "payment:refunded" /\
      eventData ev !! "refundId" = Some (prop result "id") /\
      eventData ev !! "paymentId" = Some (prop (paramsObject params) "paymentId") /\
      eventData ev !! "reason" = Some (prop (paramsObject params) "reason")
  | inl rejected =>
      outcome.1 = Threw (ThrownError rejected) /\
      eventName ev = "payment:refund:failed" /\
      eventData ev !! "error" = Some (JStr (message rejected))
  end.
Proof.
  intros Hprovider Hcall. cbv zeta. unfold refundPayment, refundPayment_try.
  rewrite Hprovider, (run_provider_eq _ _ _ _ Hcall).
  destruct r as [rejected|result]; cbn [fst snd];
    rewrite emitEvent_world, set_world_world; (split; [done|]);
    eexists; (split; [apply published_app; by rewrite emitEvent_delivered|]);
    (split; [done|]); (split; [reflexivity|]); cbn [eventData];
    rewrite !decorate_lookup_ne by done.
  - unfold paymentFailedData. obj_lookup.
  - unfold refundedData. split; [obj_lookup|]. split; obj_lookup.
Qed.

End PaymentFacts.

(** ** Recurring payments *)

Section SubscriptionFacts.
Context `{Runtime} `{!Clock}.

#[local] Opaque emitEvent decorate.

(** X25. [handleRecurringPayment] never publishes
    [subscription:recurring:payment:failed].  Given an object it returns
    after [...:started] and [...:completed], which carry the same amount and
    currency.  Given [undefined] it throws a [TypeError] twice over, in the
    [try] block and again in the [catch] block while the failure event is
    being built, so that nothing at all is published. *)
Theorem handleRecurringPayment_never_reports_failure subscriptionId paymentData st :
  let outcome := handleRecurringPayment subscriptionId paymentData st in
  let log := published st outcome.2 in
  count_events "subscription:recurring:payment:failed" log = 0 /\
  match paymentData with
  | Some data =>
      outcome.1 = Returned tt /\
      exists started completed, log = [started; completed] /\
        eventNames log = ["subscription:recurring:payment:started";
                          "subscription:recurring:payment:completed"] /\
        eventData started !! "amount" = Some (prop data "amount") /\
        eventData completed !! "amount" = Some (prop data "amount") /\
        eventData started !! "currency" = Some (prop data "currency") /\
        eventData completed !! "currency" = Some (prop data "currency")
  | None =>
      (exists typeError, outcome.1 = Threw (ThrownError typeError)) /\
      outcome.2 = st /\ log = []
  end.
Proof.
  cbv zeta. unfold handleRecurringPayment, handleRecurringPayment_try.
  destruct paymentData as [data|]; cbn [fst snd].
  - erewrite published_app;
      [|by rewrite !emitEvent_delivered, emitEvent_world, <- app_assoc].
    split; [done|]. split; [done|].
    eexists _, _. split; [reflexivity|]. split; [done|]. cbn [eventData].
    rewrite !decorate_lookup_ne by done.
    unfold recurringStartedData, recurringCompletedData.
    split; [obj_lookup|]. split; [obj_lookup|]. split; obj_lookup.
  - erewrite published_app; [|by rewrite app_nil_r].
    split; [done|]. split; [by eexists|done].
Qed.

End SubscriptionFacts.

(** * The further properties at concrete inputs *)

(** X1 at the default config and an operation that fails once. *)
Lemma executeWithRetry_attempt_budget_witness :
  (1 <= maxAttempts defaultConfig)%Z /\
  count_events "retry:attempt"
    (published start (executeWithRetry defaultConfig failsOnce emptyContext start).2)
  <= Z.to_nat (maxAttempts defaultConfig).
Proof.
  assert (Hmax : (1 <= maxAttempts defaultConfig)%Z) by (vm_compute; discriminate).
  split; [exact Hmax|].
  exact (proj1 (executeWithRetry_attempt_budget defaultConfig failsOnce
                  emptyContext start Hmax)).
Defined.

(** X2 at the default config and an operation that always fails. *)
Lemma executeWithRetry_scheduled_delays_witness :
  (1 <= maxAttempts defaultConfig)%Z /\
  scheduledDelays
    (published start (executeWithRetry defaultConfig alwaysFails emptyContext start).2)
  = (fun i => JNum (calculateDelay defaultConfig i))
      <$> seqZ 1 (Z.of_nat (count_events "retry:scheduled"
            (published start
               (executeWithRetry defaultConfig alwaysFails emptyContext start).2))).
Proof.
  assert (Hmax : (1 <= maxAttempts defaultConfig)%Z) by (vm_compute; discriminate).
  split; [exact Hmax|].
  exact (executeWithRetry_scheduled_delays defaultConfig alwaysFails
           emptyContext start Hmax).
Defined.

(** X3 at the default config. *)
Lemma executeWithRetry_always_fails_witness :
  always_fails alwaysFails /\
  (1 <= maxAttempts defaultConfig)%Z /\
  count_events "retry:attempt"
    (published start (executeWithRetry defaultConfig alwaysFails emptyContext start).2)
  = Z.to_nat (maxAttempts defaultConfig).
Proof.
  assert (Hfail : always_fails alwaysFails) by (intros w; eexists; reflexivity).
  assert (Hmax : (1 <= maxAttempts defaultConfig)%Z) by (vm_compute; discriminate).
  split; [exact Hfail|]. split; [exact Hmax|].
  exact (proj1 (proj2 (executeWithRetry_always_fails defaultConfig alwaysFails
                         emptyContext start Hfail Hmax))).
Defined.

(** X5 at the default config: the delay of the thirtieth attempt is capped. *)
Lemma calculateDelay64_bounded_witness :
  strategy64 defaultConfig64 <> "fixed" /\
  double_le (calculateDelay64 defaultConfig64 30) (maxDelay64 defaultConfig64) = true.
Proof.
  assert (Hfixed : strategy64 defaultConfig64 <> "fixed") by discriminate.
  split; [exact Hfixed|].
  destruct (calculateDelay64_bounded defaultConfig64 30 Hfixed) as [Hnan|Hle];
    [|exact Hle].
  exfalso. revert Hnan. vm_compute. discriminate.
Defined.

(** X6 at a signed Stripe webhook whose event type is ["__proto__"]. *)
Lemma processWebhook_inherited_event_type_witness :
  valid (verifyWebhook stripeHandler inheritedWebhook) = true /\
  mapProviderEvent (provider inheritedWebhook) (payload inheritedWebhook)
    = JStr "__proto__" /\
  getEventMap (provider inheritedWebhook) = inl stripeEvents /\
  ("__proto__" ∈ objectPrototypeKeys) /\
  (forall data st', emitNative (inherited "__proto__") data st'
     = (Threw (ThrownError {| message := "type.slice is not a function" |}), st')) /\
  eventNames (published start (processWebhook stripeHandler inheritedWebhook start).2)
    = ["webhook:received"; "webhook:processing:failed"].
Proof.
  assert (Hvalid : valid (verifyWebhook stripeHandler inheritedWebhook) = true)
    by reflexivity.
  assert (Htype : mapProviderEvent (provider inheritedWebhook)
                    (payload inheritedWebhook) = JStr "__proto__")
    by (vm_compute; reflexivity).
  assert (Hmap : getEventMap (provider inheritedWebhook) = inl stripeEvents)
    by reflexivity.
  assert (Hin : "__proto__" ∈ objectPrototypeKeys)
    by (refine (bool_decide_unpack _ _); vm_compute; exact I).
  assert (Hbus : forall data st', emitNative (inherited "__proto__") data st'
     = (Threw (ThrownError {| message := "type.slice is not a function" |}), st'))
    by reflexivity.
  split; [exact Hvalid|]. split; [exact Htype|]. split; [exact Hmap|].
  split; [exact Hin|]. split; [exact Hbus|].
  exact (proj1 (proj2 (proj2 (proj2
    (processWebhook_inherited_event_type stripeHandler inheritedWebhook
       "__proto__" stripeEvents _ start Hvalid Htype Hmap Hin Hbus))))).
Defined.

(** X9 at two items queued with the context object [0]. *)
Lemma processRetryQueue_shared_context_witness :
  (1 <= maxAttempts defaultConfig)%Z /\
  pending sharedQueue = [sharedItem1; sharedItem2] /\
  context sharedItem1 = context sharedItem2 /\
  always_fails (operation sharedItem1) /\
  always_fails (operation sharedItem2) /\
  (0 <= or_int (retryCount (contexts sharedQueue (context sharedItem1))) 0)%Z /\
  retryCount (contexts (processRetryQueue defaultConfig sharedQueue).2
                (context sharedItem1))
  = Some (or_int (retryCount (contexts sharedQueue (context sharedItem1))) 0 + 2)%Z.
Proof.
  assert (Hmax : (1 <= maxAttempts defaultConfig)%Z) by (vm_compute; discriminate).
  assert (Hpending : pending sharedQueue = [sharedItem1; sharedItem2]) by reflexivity.
  assert (Hshared : context sharedItem1 = context sharedItem2) by reflexivity.
  assert (Hfail1 : always_fails (operation sharedItem1))
    by (intros w; eexists; reflexivity).
  assert (Hfail2 : always_fails (operation sharedItem2))
    by (intros w; eexists; reflexivity).
  assert (Hcount : (0 <= or_int (retryCount (contexts sharedQueue
                                               (context sharedItem1))) 0)%Z)
    by (vm_compute; discriminate).
  repeat (split; [assumption|]).
  exact (processRetryQueue_shared_context defaultConfig sharedQueue
           sharedItem1 sharedItem2 Hmax Hpending Hshared Hfail1 Hfail2 Hcount).
Defined.

(** X10 at a service built with [maxAttempts: 0]. *)
Lemma processRetryQueue_no_attempts_witness :
  (maxAttempts noAttempts <= 0)%Z /\
  pending queuedNoAttempts = noAttemptsItem :: [] /\
  (maxAttempts (config noAttemptsItem)
   <= or_int (retryCount (contexts queuedNoAttempts (context noAttemptsItem))) 0 + 1)%Z /\
  published queuedNoAttempts (processRetryQueue noAttempts queuedNoAttempts).2 = [].
Proof.
  assert (Hnone : (maxAttempts noAttempts <= 0)%Z) by (vm_compute; discriminate).
  assert (Hpending : pending queuedNoAttempts = noAttemptsItem :: []) by reflexivity.
  assert (Hreached : (maxAttempts (config noAttemptsItem)
     <= or_int (retryCount (contexts queuedNoAttempts (context noAttemptsItem))) 0 + 1)%Z)
    by (vm_compute; discriminate).
  repeat (split; [assumption|]).
  exact (proj1 (proj2 (proj2 (proj2
    (processRetryQueue_no_attempts noAttempts queuedNoAttempts noAttemptsItem []
       Hnone Hpending Hreached))))).
Defined.

(** X11 at the default service: three drain cycles of three attempts. *)
Lemma drainCycles_compound_witness :
  always_fails (operation defaultItem) /\
  (1 <= maxAttempts defaultConfig)%Z /\
  pending queuedDefault = [defaultItem] /\
  (0 <= or_int (retryCount (contexts queuedDefault (context defaultItem))) 0
     < maxAttempts (config defaultItem))%Z /\
  pending (drainCycles
             (Z.to_nat (maxAttempts (config defaultItem)
                        - or_int (retryCount (contexts queuedDefault
                                                (context defaultItem))) 0))
             defaultConfig queuedDefault) = [].
Proof.
  assert (Hfail : always_fails (operation defaultItem))
    by (intros w; eexists; reflexivity).
  assert (Hmax : (1 <= maxAttempts defaultConfig)%Z) by (vm_compute; discriminate).
  assert (Hpending : pending queuedDefault = [defaultItem]) by reflexivity.
  assert (Hcount : (0 <= or_int (retryCount (contexts queuedDefault
                                               (context defaultItem))) 0
                      < maxAttempts (config defaultItem))%Z)
    by (vm_compute; split; [discriminate|reflexivity]).
  repeat (split; [assumption|]).
  exact (proj1 (drainCycles_compound defaultConfig queuedDefault defaultItem
                  Hfail Hmax Hpending Hcount)).
Defined.

(** X13 at Stripe and an event type without an entry. *)
Lemma routeWebhookEvent_one_generic_witness :
  getEventMap "stripe" = inl stripeEvents /\
  ("something.new" ∉ objectPrototypeKeys) /\
  count_events "webhook:event"
    (published start
       (routeWebhookEvent "stripe" (JStr "something.new") ∅ start).2) = 1.
Proof.
  assert (Hmap : getEventMap "stripe" = inl stripeEvents) by reflexivity.
  assert (Hplain : "something.new" ∉ objectPrototypeKeys)
    by (refine (bool_decide_unpack _ _); vm_compute; exact I).
  split; [exact Hmap|]. split; [exact Hplain|].
  exact (proj1 (proj2 (routeWebhookEvent_one_generic "stripe" "something.new"
                         stripeEvents ∅ start Hmap Hplain))).
Defined.

(** X14 at Stripe's [payment_intent.succeeded]. *)
Lemma routeWebhookEvent_mapped_witness :
  getEventMap "stripe" = inl stripeEvents /\
  stripeEvents !! "payment_intent.succeeded" = Some "payment:captured" /\
  internalEvent "stripe" (JStr "payment_intent.succeeded")
    = inr (inl "payment:captured").
Proof.
  assert (Hmap : getEventMap "stripe" = inl stripeEvents) by reflexivity.
  assert (Hlook : stripeEvents !! "payment_intent.succeeded"
                  = Some "payment:captured") by (vm_compute; reflexivity).
  split; [exact Hmap|]. split; [exact Hlook|].
  exact (proj1 (routeWebhookEvent_mapped "stripe" "payment_intent.succeeded"
                  stripeEvents "payment:captured" ∅ start Hmap Hlook)).
Defined.

(** X15 at a provider called ["square"]. *)
Lemma internalEvent_unknown_provider_witness :
  "square" <> "stripe" /\ "square" <> "paypal" /\
  ("square" ∉ objectPrototypeKeys) /\
  ("payment.updated" ∉ objectPrototypeKeys) /\
  internalEvent "square" (JStr "payment.updated")
  = inr (inl ("webhook:" +:+ "square" +:+ ":" +:+ "payment.updated")).
Proof.
  assert (Hs : "square" <> "stripe") by discriminate.
  assert (Hp : "square" <> "paypal") by discriminate.
  assert (Hprovider : "square" ∉ objectPrototypeKeys)
    by (refine (bool_decide_unpack _ _); vm_compute; exact I).
  assert (Hplain : "payment.updated" ∉ objectPrototypeKeys)
    by (refine (bool_decide_unpack _ _); vm_compute; exact I).
  repeat (split; [assumption|]).
  exact (proj2 (internalEvent_unknown_provider "square" "payment.updated"
                  Hs Hp Hprovider Hplain)).
Defined.


(** X17 at a Stripe webhook signed with the secret. *)
Lemma processWebhook_verified_witness :
  valid (verifyWebhook stripeHandler signedWebhook) = true /\
  mapProviderEvent (provider signedWebhook) (payload signedWebhook)
    = JStr "payment_intent.succeeded" /\
  getEventMap (provider signedWebhook) = inl stripeEvents /\
  ("payment_intent.succeeded" ∉ objectPrototypeKeys) /\
  (processWebhook stripeHandler signedWebhook start).1 = Returned tt.
Proof.
  assert (Hvalid : valid (verifyWebhook stripeHandler signedWebhook) = true)
    by reflexivity.
  assert (Htype : mapProviderEvent (provider signedWebhook) (payload signedWebhook)
                  = JStr "payment_intent.succeeded") by (vm_compute; reflexivity).
  assert (Hmap : getEventMap (provider signedWebhook) = inl stripeEvents)
    by reflexivity.
  assert (Hplain : "payment_intent.succeeded" ∉ objectPrototypeKeys)
    by (refine (bool_decide_unpack _ _); vm_compute; exact I).
  repeat (split; [assumption|]).
  exact (proj1 (processWebhook_verified stripeHandler signedWebhook
                  "payment_intent.succeeded" stripeEvents start
                  Hvalid Htype Hmap Hplain)).
Defined.

(** X18 at a PayPal webhook. *)
Lemma processWebhook_unverified_provider_witness :
  provider paypalWebhook <> "stripe" /\
  mapProviderEvent (provider paypalWebhook) (payload paypalWebhook)
    = JStr "PAYMENT.CAPTURE.COMPLETED" /\
  getEventMap (provider paypalWebhook) = inl paypalEvents /\
  ("PAYMENT.CAPTURE.COMPLETED" ∉ objectPrototypeKeys) /\
  (processWebhook stripeHandler paypalWebhook start).1 = Returned tt.
Proof.
  assert (Hother : provider paypalWebhook <> "stripe") by discriminate.
  assert (Htype : mapProviderEvent (provider paypalWebhook) (payload paypalWebhook)
                  = JStr "PAYMENT.CAPTURE.COMPLETED") by (vm_compute; reflexivity).
  assert (Hmap : getEventMap (provider paypalWebhook) = inl paypalEvents)
    by reflexivity.
  assert (Hplain : "PAYMENT.CAPTURE.COMPLETED" ∉ objectPrototypeKeys)
    by (refine (bool_decide_unpack _ _); vm_compute; exact I).
  repeat (split; [assumption|]).
  exact (proj2 (processWebhook_unverified_provider stripeHandler paypalWebhook
                  "PAYMENT.CAPTURE.COMPLETED" paypalEvents start
                  Hother Htype Hmap Hplain)).
Defined.

(** X19 at a handler without a Stripe secret, for which the stand-in
    validator throws. *)
Lemma processWebhook_validator_throws_witness :
  provider signedWebhook = "stripe" /\
  validateWebhookSignature (payload signedWebhook)
    (or_str (signature signedWebhook) "") (stripeWebhookSecret bareHandler)
  = inl {| message := "Webhook secret is not configured" |} /\
  (processWebhook bareHandler signedWebhook start).1
  = Threw (ThrownError
      {| message := "Webhook verification failed: "
                    +:+ message {| message := "Webhook secret is not configured" |} |}).
Proof.
  assert (Hstripe : provider signedWebhook = "stripe") by reflexivity.
  assert (Hthrown : validateWebhookSignature (payload signedWebhook)
      (or_str (signature signedWebhook) "") (stripeWebhookSecret bareHandler)
    = inl {| message := "Webhook secret is not configured" |}) by reflexivity.
  split; [exact Hstripe|]. split; [exact Hthrown|].
  exact (proj1 (processWebhook_validator_throws bareHandler signedWebhook start
                  _ Hstripe Hthrown)).
Defined.

(** X21 at params without an amount. *)
Lemma createPaymentIntent_invalid_params_witness :
  validatePaymentParams incompletePayment
  = Some {| message := "amount is required" |} /\
  (createPaymentIntent incompletePayment start).1
  = Threw (ThrownError {| message := "amount is required" |}).
Proof.
  assert (Hinvalid : validatePaymentParams incompletePayment
                     = Some {| message := "amount is required" |}) by reflexivity.
  split; [exact Hinvalid|].
  exact (proj1 (createPaymentIntent_invalid_params incompletePayment start _ Hinvalid)).
Defined.

(** X22 at a provider called ["square"]. *)
Lemma payments_unsupported_provider_witness :
  paymentProvider squarePayment <> "stripe" /\
  paymentProvider squarePayment <> "paypal" /\
  getPaymentMethods "cus_1" (paymentProvider squarePayment) start
  = (Threw (ThrownError (unsupportedProvider (paymentProvider squarePayment))), start).
Proof.
  assert (Hs : paymentProvider squarePayment <> "stripe") by discriminate.
  assert (Hp : paymentProvider squarePayment <> "paypal") by discriminate.
  repeat (split; [assumption|]).
  exact (proj2 (proj2 (payments_unsupported_provider squarePayment "cus_1" start
                         Hs Hp))).
Defined.

(** X23 at the resolving provider. *)
Lemma capturePayment_outcome_witness :
  providers !! paymentProvider stripePayment = Some resolvingProvider /\
  world (capturePayment stripePayment start).2 = 1.
Proof.
  assert (Hprovider : providers !! paymentProvider stripePayment
                      = Some resolvingProvider) by (vm_compute; reflexivity).
  split; [exact Hprovider|].
  exact (proj1 (capturePayment_outcome stripePayment start resolvingProvider
                  _ _ Hprovider eq_refl)).
Defined.

(** X24 at the rejecting provider. *)
Lemma refundPayment_outcome_witness :
  providers !! paymentProvider paypalPayment = Some rejectingProvider /\
  world (refundPayment paypalPayment start).2 = 1.
Proof.
  assert (Hprovider : providers !! paymentProvider paypalPayment
                      = Some rejectingProvider) by (vm_compute; reflexivity).
  split; [exact Hprovider|].
  exact (proj1 (refundPayment_outcome paypalPayment start rejectingProvider
                  _ _ Hprovider eq_refl)).
Defined.
